(** * MSTwillio: the WhatsApp polling bot, embedded and verified

    The repository holds one program written twice: [twillioexplanation.py]
    splits it into functions, [app.py] runs the same statements at module
    level.  The development follows [twillioexplanation.py]; each definition
    names the lines of [app.py] that carry the same statement.

    - Part 1: Python strings as lists of code points, [str.replace],
      [str.strip] and [format_number].
    - Part 2: the provider calls as events of an interaction tree, the
      functions [get_or_create_conversation], [ensure_participant] and
      [poll_messages] as trees over these events.
    - Part 3: facts about strings.
    - Part 4: facts about the provisioning functions and the poll loop.
    - Parts 5 to 8: further facts about normalization, provisioning, the
      poll loop, [main] and the script [app.py]. *)

From ITree Require Import ITree ITreeFacts Events.State Events.StateFacts.
From Equations Require Import Equations.
From Stdlib Require Import String Ascii.
From Stdlib Require Import List NArith Bool Arith Lia.
Import ListNotations.

(* ===================================================================== *)
(** * Part 1: strings                                                      *)
(* ===================================================================== *)

Module PyStr.

(** A Python [str] is a sequence of Unicode code points. *)
Definition char := N.
Definition str := list char.

(** ASCII literals of the source, as code points. *)
Definition lit (s : string) : str :=
  List.map N_of_ascii (list_ascii_of_string s).

Fixpoint str_eqb (a b : str) : bool :=
  match a, b with
  | [], [] => true
  | x :: a', y :: b' => N.eqb x y && str_eqb a' b'
  | _, _ => false
  end.

(** [s.startswith(p)]. *)
Fixpoint startswith (p s : str) : bool :=
  match p, s with
  | [], _ => true
  | _ :: _, [] => false
  | x :: p', y :: s' => N.eqb x y && startswith p' s'
  end.

(** [old in s]: some suffix of [s] starts with [old]. *)
Fixpoint contains (old s : str) : bool :=
  startswith old s ||
  match s with
  | [] => false
  | _ :: s' => contains old s'
  end.

(** [new.join(chars of s)] framed by [new]: what [s.replace("", new)] gives. *)
Fixpoint intersperse (new s : str) : str :=
  match s with
  | [] => new
  | c :: s' => new ++ c :: intersperse new s'
  end.

(** [s.replace(old, new)]: the occurrences of [old] are found from left to
    right and do not overlap; the scan resumes right after an occurrence. *)
Equations? replace (old new s : str) : str by wf (length s) lt :=
  replace [] new s := intersperse new s;
  replace (o :: old') new [] := [];
  replace (o :: old') new (c :: s') :=
    if startswith (o :: old') (c :: s')
    then new ++ replace (o :: old') new (skipn (length old') s')
    else c :: replace (o :: old') new s'.
Proof.
  pose proof (length_skipn (length old') s') as L. simpl. lia.
Qed.

(** [c.isspace()], the table of CPython's [_PyUnicode_IsWhitespace]. *)
Definition isspace (c : char) : bool :=
  (((9 <=? c) && (c <=? 13)) || ((28 <=? c) && (c <=? 32))
   || (c =? 133) || (c =? 160) || (c =? 5760)
   || ((8192 <=? c) && (c <=? 8202))
   || (c =? 8232) || (c =? 8233) || (c =? 8239) || (c =? 8287)
   || (c =? 12288))%N.

(** [s.lstrip()], [s.rstrip()] and [s.strip()] without argument. *)
Fixpoint lstrip (s : str) : str :=
  match s with
  | [] => []
  | c :: s' => if isspace c then lstrip s' else s
  end.

Definition rstrip (s : str) : str := rev (lstrip (rev s)).

Definition strip (s : str) : str := rstrip (lstrip s).

End PyStr.

Import PyStr.

(** The channel prefix, ["whatsapp:"]. *)
Definition whatsapp : str := Eval cbv in lit "whatsapp:"%string.

(** [format_number] (twillioexplanation.py 23-29; app.py 17-20 applies the
    same two statements to PHONE_NUMBER and to MS_NUMBER). *)
Definition format_number (number : str) : str :=
  let number := strip (replace whatsapp [] number) in
  whatsapp ++ number.

(** The number of copies of [p] that [s] starts with. *)
Equations? leading (p s : str) : nat by wf (length s) lt :=
  leading [] s := 0;
  leading (o :: p') [] := 0;
  leading (o :: p') (c :: s') :=
    if startswith (o :: p') (c :: s')
    then S (leading (o :: p') (skipn (length p') s'))
    else 0.
Proof.
  pose proof (length_skipn (length p') s') as L. simpl. lia.
Qed.

(** [k] copies of the channel prefix in front of [rest]. *)
Definition prefixed (k : nat) (rest : str) : str :=
  concat (repeat whatsapp k) ++ rest.

(** A string that is empty or begins with a character that is no space. *)
Definition clean_head (s : str) : Prop :=
  match s with
  | [] => True
  | c :: _ => isspace c = false
  end.

(** The normalization as the specification words it: strip a channel prefix
    at the leading position only, trim, prepend one prefix. *)
Definition strip_leading (p s : str) : str :=
  if startswith p s then skipn (length p) s else s.

Definition normalize_spec (addr : str) : str :=
  whatsapp ++ strip (strip_leading whatsapp addr).

(* ===================================================================== *)
(** * Part 2: the provider, the Python frame, the program                 *)
(* ===================================================================== *)

(** ** Resources of the provider

    The resource classes belong to the [twilio] package.  The records keep
    the attributes the source reads: [c.friendly_name],
    [p.messaging_binding], [m.sid], [m.author], [m.body]. *)

Record Conversation := {
  conversation_sid : str;
  friendly_name : str
}.

(** The messaging binding of a participant is the dictionary the provider
    sent, or [None] for a participant that joined by a chat identity.  A
    value of the dictionary is a string or [None]. *)
Definition binding : Type := list (str * option str).

Record Participant := {
  messaging_binding : option binding
}.

Record Message := {
  sid : str;
  author : str;
  body : str
}.

(** What a statement can raise. *)
Variant exn :=
| TwilioRestException (status : N)
| AttributeError
| TypeError
| KeyError (key : str)
| UnicodeEncodeError.

Definition result (A : Type) : Type := (exn + A)%type.

(** [d[key]] on a value that is a dictionary or [None]: [None] is not
    subscriptable, a key that is missing is a [KeyError]. *)
Fixpoint lookup (key : str) (d : binding) : option (option str) :=
  match d with
  | [] => None
  | (k, v) :: d' => if str_eqb k key then Some v else lookup key d'
  end.

Definition subscript (d : option binding) (key : str) : result (option str) :=
  match d with
  | None => inl TypeError
  | Some d =>
      match lookup key d with
      | Some v => inr v
      | None => inl (KeyError key)
      end
  end.

(** [v == s] for a value [v] that is a string or [None]. *)
Definition value_is (v : option str) (s : str) : bool :=
  match v with
  | Some a => str_eqb a s
  | None => false
  end.

(** ** The calls of the program, as events

    A call that reaches the provider is answered with a value or with an
    exception. *)
Variant twilioE : Type -> Type :=
| MessagingCreate (body_ from_ to : str) : twilioE (result Message)
| ConversationsList (service : option str) : twilioE (result (list Conversation))
| ConversationsCreate (service : option str) (friendly_name_ : str)
  : twilioE (result Conversation)
| ParticipantsList (conversation : Conversation)
  : twilioE (result (list Participant))
| ParticipantsCreate (conversation : Conversation)
    (messaging_binding_address_ messaging_binding_proxy_address_ : str)
  : twilioE (result Participant)
| MessagesList (conversation : Conversation) : twilioE (result (list Message))
| MessagesCreate (conversation : Conversation) (author_ body_ : str)
  : twilioE (result Message)
| Sleep (seconds : N) : twilioE unit.

(** ** A Python frame over the events

    A function body runs over its local variables [L]; an exception ends it
    and leaves the locals as they were when it was raised. *)
Module Py.

Definition py (L A : Type) : Type := L -> itree twilioE (L * result A).

Definition ret {L A} (a : A) : py L A :=
  fun l => Ret (l, inr a).

Definition raise {L A} (e : exn) : py L A :=
  fun l => Ret (l, inl e).

Definition bind {L A B} (m : py L A) (k : A -> py L B) : py L B :=
  fun l =>
    ITree.bind (m l) (fun out =>
      match out with
      | (l', inr a) => k a l'
      | (l', inl e) => Ret (l', inl e)
      end).

(** The value or the exception of an expression that makes no call. *)
Definition lift {L A} (r : result A) : py L A :=
  fun l => Ret (l, r).

(** Reading and assigning the locals. *)
Definition get {L} : py L L :=
  fun l => Ret (l, inr l).

Definition put {L} (l' : L) : py L unit :=
  fun _ => Ret (l', inr tt).

(** A provider call: its exception, if any, is raised in the frame. *)
Definition call {L A} (e : twilioE (result A)) : py L A :=
  fun l => ITree.bind (ITree.trigger e) (fun r => Ret (l, r)).

(** [time.sleep(seconds)]. *)
Definition sleep {L} (seconds : N) : py L unit :=
  fun l => ITree.bind (ITree.trigger (Sleep seconds)) (fun _ => Ret (l, inr tt)).

(** [print(a, b, ...)] on a standard output that encodes to UTF-8.  What
    is written is not recorded; what the statement can do to the run is
    raise: UTF-8 has no encoding for the surrogate code points U+D800 to
    U+DFFF, and a string that holds one raises [UnicodeEncodeError]. *)
Definition surrogate (c : char) : bool :=
  ((55296 <=? c) && (c <=? 57343))%N.

Definition encodable (s : str) : bool := negb (existsb surrogate s).

Definition print {L} (args : list str) : py L unit :=
  if forallb encodable args then ret tt else raise UnicodeEncodeError.

(** [while True: body].  The loop is left by an exception only. *)
Definition while_true {L} (body : py L unit) : py L Empty_set :=
  ITree.iter (fun l =>
    ITree.bind (body l) (fun out =>
      match out with
      | (l', inr _) => Ret (inl l')
      | (l', inl e) => Ret (inr (l', inl e))
      end)).

End Py.

Import Py.

Declare Scope py_scope.
Delimit Scope py_scope with py.
Notation "x <- m ;; k" := (bind m (fun x => k))
  (at level 61, m at next level, right associativity) : py_scope.
Notation "m ;; k" := (bind m (fun _ => k))
  (at level 61, right associativity) : py_scope.
Local Open Scope py_scope.

(** ** The functions of the source *)

Definition initial_body : str :=
  Eval cbv in
    lit "This is a message that I want to send over WhatsApp with Twilio!"%string.

(** The texts of the [print] statements. *)
Definition from_server_api : str :=
  Eval cbv in lit "from server (Messaging API):"%string.

Definition message_sid : str :=
  Eval cbv in (9989%N :: lit " Message SID:"%string).

Definition reusing : str :=
  Eval cbv in
    (8505%N :: 65039%N :: lit " Reusing existing conversation."%string).

Definition created_new : str :=
  Eval cbv in (9989%N :: lit " Created new conversation."%string).

Definition adding_participant : str :=
  Eval cbv in lit "Adding participant with address: "%string.

Definition using_proxy : str :=
  Eval cbv in lit "Using proxy address: "%string.

Definition participant_added : str :=
  Eval cbv in (9989%N :: lit " Participant added to conversation."%string).

Definition participant_exists : str :=
  Eval cbv in
    (8505%N :: 65039%N
     :: lit " Participant already exists in the conversation."%string).

Definition waiting : str :=
  Eval cbv in
    (128242%N :: lit " Waiting for replies from your WhatsApp..."%string).

Definition from_phone : str := Eval cbv in lit "from phone:"%string.

Definition from_server : str := Eval cbv in lit "from server:"%string.

(** [send_initial_message] (twillioexplanation.py 40-52; app.py 27-33). *)
Definition send_initial_message {L} (from_number to_number : str) : py L Message :=
  message <- call (MessagingCreate initial_body from_number to_number) ;;
  print [from_server_api; body message] ;;
  print [message_sid; sid message] ;;
  ret message.

Definition Friendly_Conversation : str :=
  Eval cbv in lit "Friendly Conversation"%string.

(** [get_or_create_conversation] (twillioexplanation.py 57-71; app.py 36-43).
    [next((c for c in conversations if ...), None)] is [find]; a
    conversation object is truthy, so [if convo] tests for [None]. *)
Definition get_or_create_conversation {L} (service : option str)
  : py L Conversation :=
  conversations <- call (ConversationsList service) ;;
  let convo :=
    find (fun c => str_eqb (friendly_name c) Friendly_Conversation)
         conversations in
  convo <- match convo with
           | Some convo =>
               print [reusing] ;;
               ret convo
           | None =>
               convo <- call (ConversationsCreate service Friendly_Conversation) ;;
               print [created_new] ;;
               ret convo
           end ;;
  ret convo.

Definition address_key : str := Eval cbv in lit "address"%string.

(** [any(p.messaging_binding['address'] == phone_number for p in
    participants)]: the participants are looked at in their order, the
    first one that matches ends the search, and a subscript that raises
    ends it with its exception. *)
Definition bound_address (p : Participant) : result (option str) :=
  subscript (messaging_binding p) address_key.

Fixpoint any_address_is (phone_number : str) (participants : list Participant)
  : result bool :=
  match participants with
  | [] => inr false
  | p :: participants' =>
      match bound_address p with
      | inl e => inl e
      | inr v =>
          if value_is v phone_number
          then inr true
          else any_address_is phone_number participants'
      end
  end.

(** A participant whose [messaging_binding['address']] can be read and is
    not [phone_number]. *)
Definition other_address (phone_number : str) (p : Participant) : Prop :=
  exists v, bound_address p = inr v /\ v <> Some phone_number.

(** [ensure_participant] (twillioexplanation.py 73-90; app.py 46-58). *)
Definition ensure_participant {L} (conversation : Conversation)
    (phone_number proxy_number : str) : py L unit :=
  participants <- call (ParticipantsList conversation) ;;
  already_exists <- lift (any_address_is phone_number participants) ;;
  if negb already_exists
  then print [adding_participant ++ phone_number] ;;
       print [using_proxy ++ proxy_number] ;;
       _ <- call (ParticipantsCreate conversation phone_number proxy_number) ;;
       print [participant_added]
  else print [participant_exists].

(** [messages[-1]] of a non-empty list; [None] stands for the empty list,
    which is falsy in [if messages]. *)
Fixpoint last_message (messages : list Message) : option Message :=
  match messages with
  | [] => None
  | [m] => Some m
  | _ :: messages' => last_message messages'
  end.

(** [last_msg.sid != last_sid], where [last_sid] is [None] or a string. *)
Definition sid_differs (s : str) (last_sid : option str) : bool :=
  match last_sid with
  | None => true
  | Some s' => negb (str_eqb s s')
  end.

Definition system : str := Eval cbv in lit "system"%string.

(** The reply: U+2705 and the text. *)
Definition reply : str :=
  Eval cbv in (9989%N :: lit " Message received. I am the server."%string).

(** The body of the loop of [poll_messages] (twillioexplanation.py 104-117;
    app.py 76-89).  The only local is [last_sid]. *)
Definition poll_body (conversation : Conversation) (user_number : str)
  : py (option str) unit :=
  messages <- call (MessagesList conversation) ;;
  match last_message messages with
  | Some last_msg =>
      last_sid <- get ;;
      if sid_differs (sid last_msg) last_sid
         && str_eqb (author last_msg) user_number
      then print [from_phone; body last_msg] ;;
           print [from_server; reply] ;;
           _ <- call (MessagesCreate conversation system reply) ;;
           put (Some (sid last_msg))
      else ret tt
  | None => ret tt
  end ;;
  sleep 1.

(** [poll_messages] (twillioexplanation.py 95-117; app.py 73-89). *)
Definition poll_messages (conversation : Conversation) (user_number : str)
  : py (option str) Empty_set :=
  print [waiting] ;;
  put None ;;
  while_true (poll_body conversation user_number).

(** The dictionary of [load_env_variables]: [os.getenv] gives [None] for a
    variable that is not set. *)
Record Env := {
  account_sid : option str;
  api_key_sid : option str;
  api_key_secret : option str;
  phone_number : option str;
  ms_number : option str;
  service_sid : option str
}.

(** [format_number] applied to what [os.getenv] gave: [None] has no
    [replace]. *)
Definition format_env_number {L} (number : option str) : py L str :=
  match number with
  | Some number => ret (format_number number)
  | None => raise AttributeError
  end.

(** [main] (twillioexplanation.py 122-140; app.py as a whole). *)
Definition main (env : Env) : py (option str) Empty_set :=
  phone_number' <- format_env_number (phone_number env) ;;
  ms_number' <- format_env_number (ms_number env) ;;
  let service := service_sid env in
  _ <- send_initial_message ms_number' phone_number' ;;
  conversation <- get_or_create_conversation service ;;
  ensure_participant conversation phone_number' ms_number' ;;
  poll_messages conversation phone_number'.

(** ** Running a frame against a provider

    The provider is any function from a call and its own state to an answer
    and its next state.  Running a frame threads the provider's state and
    records every call with its answer. *)

Record entry := Entry {
  answer_type : Type;
  request : twilioE answer_type;
  answer : answer_type
}.

Arguments Entry {answer_type} request answer.
Arguments request : clear implicits.
Arguments answer : clear implicits.

Definition trace := list entry.

Section Semantics.

Variable World : Type.
Variable respond : forall X, twilioE X -> World -> World * X.

Definition state : Type := (World * trace)%type.

Definition provider : forall X, twilioE X -> Monads.stateT state (itree void1) X :=
  fun X e s =>
    let (w', x) := respond X e (fst s) in
    Ret ((w', snd s ++ [Entry e x]), x).

Definition run {L A} (m : py L A) (l : L) (s : state)
  : itree void1 (state * (L * result A)) :=
  interp_state provider (m l) s.

(** The run ends with this outcome (after finitely many silent steps). *)
Definition returns {R} (t : itree void1 R) (r : R) : Prop :=
  eutt eq t (Ret r).

(** The states of the loop of [poll_messages]: the value of [last_sid]
    and the provider's state at the top of the loop, starting after the
    assignment [last_sid = None]. *)
Inductive reachable (conversation : Conversation) (user_number : str)
    (s0 : state) : option str -> state -> Prop :=
| reach_start : reachable conversation user_number s0 None s0
| reach_tick l s l' s' :
    reachable conversation user_number s0 l s ->
    returns (run (poll_body conversation user_number) l s) (s', (l', inr tt)) ->
    reachable conversation user_number s0 l' s'.

End Semantics.

Arguments provider {World} respond X e s.
Arguments run {World} respond {L A} m l s.
Arguments reachable {World} respond conversation user_number s0 _ _.

(** Running a closed tree with fuel. *)
Fixpoint eval_fuel {R} (fuel : nat) (t : itree void1 R) : option R :=
  match fuel with
  | O => None
  | S fuel' =>
      match observe t with
      | RetF r => Some r
      | TauF t' => eval_fuel fuel' t'
      | VisF e _ => match e with end
      end
  end.

(** ** Reading a trace *)

(** The [conversations.create] calls of a trace: label and answer. *)
Definition conversation_created (e : entry)
  : option (str * result Conversation) :=
  match request e in twilioE X return X -> option (str * result Conversation) with
  | ConversationsCreate _ name => fun r => Some (name, r)
  | _ => fun _ => None
  end (answer e).

(** The [participants.create] calls of a trace: conversation, address and
    proxy address. *)
Definition participant_created (e : entry)
  : option (Conversation * str * str) :=
  match request e with
  | ParticipantsCreate c address proxy => Some (c, address, proxy)
  | _ => None
  end.

(** The [messages.create] calls of a trace: conversation, author, body and
    answer. *)
Definition message_created (e : entry)
  : option (Conversation * str * str * result Message) :=
  match request e in twilioE X
        return X -> option (Conversation * str * str * result Message) with
  | MessagesCreate c a b => fun r => Some (c, a, b, r)
  | _ => fun _ => None
  end (answer e).

(** The answers to the [messages.list] calls of a trace. *)
Definition messages_listed (e : entry) : option (result (list Message)) :=
  match request e in twilioE X return X -> option (result (list Message)) with
  | MessagesList _ => fun r => Some r
  | _ => fun _ => None
  end (answer e).

Fixpoint collect {A} (f : entry -> option A) (tr : trace) : list A :=
  match tr with
  | [] => []
  | e :: tr' =>
      match f e with
      | Some a => a :: collect f tr'
      | None => collect f tr'
      end
  end.

Definition conversations_created := collect conversation_created.
Definition participants_created := collect participant_created.
Definition created := collect message_created.
Definition fetched := collect messages_listed.

(** ** One pass of the loop, as a step relation

    [reacting] is the guard of the loop body: the last message, when the
    list is not empty, its [sid] differs from [last_sid] and its author is
    [user_number]. *)
Definition reacting (user_number : str) (last_sid : option str)
    (messages : list Message) : option Message :=
  match last_message messages with
  | Some last_msg =>
      if sid_differs (sid last_msg) last_sid
         && str_eqb (author last_msg) user_number
      then Some last_msg
      else None
  | None => None
  end.

Section Step.

Variable World : Type.
Variable respond : forall X, twilioE X -> World -> World * X.
Variable conversation : Conversation.
Variable user_number : str.

Inductive tick (last_sid : option str) (w : World) (tr : trace)
  : state World * (option str * result unit) -> Prop :=
| tick_list_raises w1 e :
    respond _ (MessagesList conversation) w = (w1, inl e) ->
    tick last_sid w tr
      ((w1, tr ++ [Entry (MessagesList conversation) (inl e)]),
       (last_sid, inl e))
| tick_quiet w1 messages w2 :
    respond _ (MessagesList conversation) w = (w1, inr messages) ->
    reacting user_number last_sid messages = None ->
    respond _ (Sleep 1) w1 = (w2, tt) ->
    tick last_sid w tr
      ((w2, tr ++ [Entry (MessagesList conversation) (inr messages);
                   Entry (Sleep 1) tt]),
       (last_sid, inr tt))
| tick_print_raises w1 messages last_msg :
    respond _ (MessagesList conversation) w = (w1, inr messages) ->
    reacting user_number last_sid messages = Some last_msg ->
    encodable (body last_msg) = false ->
    tick last_sid w tr
      ((w1, tr ++ [Entry (MessagesList conversation) (inr messages)]),
       (last_sid, inl UnicodeEncodeError))
| tick_create_raises w1 messages last_msg w2 e :
    respond _ (MessagesList conversation) w = (w1, inr messages) ->
    reacting user_number last_sid messages = Some last_msg ->
    encodable (body last_msg) = true ->
    respond _ (MessagesCreate conversation system reply) w1 = (w2, inl e) ->
    tick last_sid w tr
      ((w2, tr ++ [Entry (MessagesList conversation) (inr messages);
                   Entry (MessagesCreate conversation system reply) (inl e)]),
       (last_sid, inl e))
| tick_reply w1 messages last_msg w2 m w3 :
    respond _ (MessagesList conversation) w = (w1, inr messages) ->
    reacting user_number last_sid messages = Some last_msg ->
    encodable (body last_msg) = true ->
    respond _ (MessagesCreate conversation system reply) w1 = (w2, inr m) ->
    respond _ (Sleep 1) w2 = (w3, tt) ->
    tick last_sid w tr
      ((w3, tr ++ [Entry (MessagesList conversation) (inr messages);
                   Entry (MessagesCreate conversation system reply) (inr m);
                   Entry (Sleep 1) tt]),
       (Some (sid last_msg), inr tt)).

End Step.

Arguments tick {World} respond conversation user_number last_sid w tr _.

(** [last_sid] is the [sid] of a message of [user_number], not of
    ["system"], that was fetched as the last element of the list and whose
    reply was created right after. *)
Definition answered (conversation : Conversation) (user_number : str)
    (tr : trace) (last_sid : option str) : Prop :=
  exists before init last_msg m after,
    tr = before
         ++ [Entry (MessagesList conversation) (inr (init ++ [last_msg]));
             Entry (MessagesCreate conversation system reply) (inr m)]
         ++ after /\
    last_sid = Some (sid last_msg) /\
    author last_msg = user_number /\
    author last_msg <> system.

(** ** Participants and messages for the examples *)

(** A participant bound to a WhatsApp address, with the dictionary the
    provider sends for it. *)
Definition bound_to (a proxy : str) : Participant :=
  {| messaging_binding :=
       Some [(lit "type"%string, Some (lit "whatsapp"%string));
             (address_key, Some a);
             (lit "proxy_address"%string, Some proxy)] |}.

(** A participant that joined by a chat identity: it has no binding. *)
Definition chat_participant : Participant :=
  {| messaging_binding := None |}.

(** ** A provider for the examples

    It holds one conversation.  Created messages go to [sent] and do not show
    in the listed [inbound] messages; while [outage] holds, creating a
    message is refused. *)
Record Mock := {
  conversations : list Conversation;
  participants : list Participant;
  inbound : list Message;
  sent : list Message;
  outage : bool
}.

Definition mock_respond X (e : twilioE X) (w : Mock) : Mock * X :=
  match e in twilioE X return Mock * X with
  | MessagingCreate b f _ =>
      (w, inr {| sid := lit "SM1"%string; author := f; body := b |})
  | ConversationsList _ => (w, inr (conversations w))
  | ConversationsCreate _ name =>
      let c := {| conversation_sid := lit "CH9"%string; friendly_name := name |} in
      ({| conversations := conversations w ++ [c];
          participants := participants w;
          inbound := inbound w; sent := sent w; outage := outage w |}, inr c)
  | ParticipantsList _ => (w, inr (participants w))
  | ParticipantsCreate _ a proxy =>
      let p := bound_to a proxy in
      ({| conversations := conversations w;
          participants := participants w ++ [p];
          inbound := inbound w; sent := sent w; outage := outage w |}, inr p)
  | MessagesList _ => (w, inr (inbound w))
  | MessagesCreate _ a b =>
      if outage w then (w, inl (TwilioRestException 503))
      else
        let m := {| sid := lit "IM9"%string; author := a; body := b |} in
        ({| conversations := conversations w;
            participants := participants w;
            inbound := inbound w; sent := sent w ++ [m];
            outage := outage w |}, inr m)
  | Sleep _ => (w, tt)
  end.

Definition conversation1 : Conversation :=
  {| conversation_sid := lit "CH1"%string;
     friendly_name := Friendly_Conversation |}.

Definition conversation0 : Conversation :=
  {| conversation_sid := lit "CH0"%string;
     friendly_name := lit "Other"%string |}.

Definition user1 : str := Eval cbv in format_number (lit "+5511999"%string).

Definition twilio1 : str := Eval cbv in format_number (lit "+14155238886"%string).

Definition hi : Message :=
  {| sid := lit "IM1"%string; author := user1; body := lit "hi"%string |}.

Definition echo : Message :=
  {| sid := lit "IM2"%string; author := system; body := reply |}.

(** A message of the user whose body holds a lone surrogate, U+D83D. *)
Definition garbled_body : str := Eval cbv in (lit "hi "%string ++ [55357%N]).

Definition garbled : Message :=
  {| sid := lit "IM3"%string; author := user1; body := garbled_body |}.

(** A provider with the given conversations, participants and inbound
    messages. *)
Definition mock (cs : list Conversation) (ps : list Participant)
    (ms : list Message) (down : bool) : Mock :=
  {| conversations := cs; participants := ps; inbound := ms;
     sent := []; outage := down |}.

(** ** Several passes, the calls of the loop, a provider that refuses *)

(** Passes of the loop body that end normally, one after the other, from the
    value of [last_sid] and the state before the first one to those after
    the last one. *)
Inductive passes {World} (respond : forall X, twilioE X -> World -> World * X)
    (conversation : Conversation) (user_number : str)
    (last_sid0 : option str) (s0 : state World)
  : option str -> state World -> Prop :=
| passes_none : passes respond conversation user_number last_sid0 s0 last_sid0 s0
| passes_more l s l' s' :
    passes respond conversation user_number last_sid0 s0 l s ->
    returns (run respond (poll_body conversation user_number) l s)
            (s', (l', inr tt)) ->
    passes respond conversation user_number last_sid0 s0 l' s'.

(** The three calls the loop makes. *)
Definition loop_call (conversation : Conversation) (e : entry) : Prop :=
  (exists r, e = Entry (MessagesList conversation) r) \/
  (exists r, e = Entry (MessagesCreate conversation system reply) r) \/
  e = Entry (Sleep 1) tt.

(** The last element of a fetched list has this [sid]. *)
Definition newest_is (x : str) (r : result (list Message)) : Prop :=
  exists init last_msg, r = inr (init ++ [last_msg]) /\ sid last_msg = x.

(** A provider that refuses every call. *)
Definition refuse X (e : twilioE X) (w : unit) : unit * X :=
  match e in twilioE X return unit * X with
  | MessagingCreate _ _ _ => (w, inl (TwilioRestException 503))
  | ConversationsList _ => (w, inl (TwilioRestException 503))
  | ConversationsCreate _ _ => (w, inl (TwilioRestException 503))
  | ParticipantsList _ => (w, inl (TwilioRestException 503))
  | ParticipantsCreate _ _ _ => (w, inl (TwilioRestException 503))
  | MessagesList _ => (w, inl (TwilioRestException 503))
  | MessagesCreate _ _ _ => (w, inl (TwilioRestException 503))
  | Sleep _ => (w, tt)
  end.

(** ** [app.py], run as a script

    The statements of [app.py] in their order, as it runs under
    [__main__].  The two numbers are cleaned first and prefixed afterwards
    (17-20); building the client and the service handle makes no call; the
    Flask application and the thread that serves it share nothing with the
    loop and are left out. *)

(** [X.replace("whatsapp:", "").strip()] on what [os.getenv] gave. *)
Definition clean_env_number {L} (number : option str) : py L str :=
  match number with
  | Some number => ret (strip (replace whatsapp [] number))
  | None => raise AttributeError
  end.

Definition app_py (env : Env) : py (option str) Empty_set :=
  PHONE_NUMBER <- clean_env_number (phone_number env) ;;
  MS_NUMBER <- clean_env_number (ms_number env) ;;
  let PHONE_NUMBER := whatsapp ++ PHONE_NUMBER in
  let MS_NUMBER := whatsapp ++ MS_NUMBER in
  let service := service_sid env in
  message <- call (MessagingCreate initial_body MS_NUMBER PHONE_NUMBER) ;;
  print [from_server_api; body message] ;;
  print [message_sid; sid message] ;;
  existing_conversations <- call (ConversationsList service) ;;
  let conversation :=
    find (fun c => str_eqb (friendly_name c) Friendly_Conversation)
         existing_conversations in
  conversation <- match conversation with
                  | Some conversation =>
                      print [reusing] ;;
                      ret conversation
                  | None =>
                      conversation <-
                        call (ConversationsCreate service Friendly_Conversation) ;;
                      print [created_new] ;;
                      ret conversation
                  end ;;
  participants <- call (ParticipantsList conversation) ;;
  already_added <- lift (any_address_is PHONE_NUMBER participants) ;;
  (if negb already_added
   then print [adding_participant ++ PHONE_NUMBER] ;;
        print [using_proxy ++ MS_NUMBER] ;;
        _ <- call (ParticipantsCreate conversation PHONE_NUMBER MS_NUMBER) ;;
        print [participant_added]
   else print [participant_exists]) ;;
  print [waiting] ;;
  put None ;;
  while_true
    (messages <- call (MessagesList conversation) ;;
     match last_message messages with
     | Some last_msg =>
         last_sid <- get ;;
         if sid_differs (sid last_msg) last_sid
            && str_eqb (author last_msg) PHONE_NUMBER
         then print [from_phone; body last_msg] ;;
              print [from_server; reply] ;;
              _ <- call (MessagesCreate conversation system reply) ;;
              put (Some (sid last_msg))
         else ret tt
     | None => ret tt
     end ;;
     sleep 1).

(** An environment with the two numbers set, one already prefixed. *)
Definition env1 : Env :=
  {| account_sid := Some (lit "AC1"%string);
     api_key_sid := Some (lit "SK1"%string);
     api_key_secret := Some (lit "secret"%string);
     phone_number := Some (lit "+5511999"%string);
     ms_number := Some (lit "whatsapp:+14155238886"%string);
     service_sid := Some (lit "IS1"%string) |}.

(** An environment in which the provider's number is not set. *)
Definition env0 : Env :=
  {| account_sid := Some (lit "AC1"%string);
     api_key_sid := Some (lit "SK1"%string);
     api_key_secret := Some (lit "secret"%string);
     phone_number := Some (lit "+5511999"%string);
     ms_number := None;
     service_sid := Some (lit "IS1"%string) |}.

(* ===================================================================== *)
(** * Part 3: facts about strings                                         *)
(* ===================================================================== *)

Section StringFacts.

Implicit Types p s a b : str.

Lemma str_eqb_eq a b : str_eqb a b = true <-> a = b.
Proof.
  revert b. induction a as [|x a IH]; intros [|y b]; simpl; try easy.
  rewrite andb_true_iff, N.eqb_eq, IH. split.
  - intros [-> ->]. reflexivity.
  - intros H. inversion H. auto.
Qed.

Lemma str_eqb_refl a : str_eqb a a = true.
Proof. apply str_eqb_eq. reflexivity. Qed.

Lemma str_eqb_neq a b : str_eqb a b = false <-> a <> b.
Proof.
  rewrite <- str_eqb_eq. destruct (str_eqb a b); split; congruence.
Qed.

Lemma startswith_app p s : startswith p (p ++ s) = true.
Proof.
  induction p as [|x p IH]; simpl; [reflexivity|].
  rewrite N.eqb_refl. exact IH.
Qed.

Lemma startswith_split p s :
  startswith p s = true -> s = p ++ skipn (length p) s.
Proof.
  revert s. induction p as [|x p IH]; intros s H; simpl in *; [reflexivity|].
  destruct s as [|y s]; [discriminate|].
  apply andb_true_iff in H as [Hx Hp]. apply N.eqb_eq in Hx. subst y.
  simpl. f_equal. apply IH, Hp.
Qed.

Lemma startswith_weaken p a b :
  startswith p a = true -> startswith p (a ++ b) = true.
Proof.
  revert a. induction p as [|x p IH]; intros a H; simpl in *; [reflexivity|].
  destruct a as [|y a]; [discriminate|]. simpl.
  apply andb_true_iff in H as [Hx Hp]. rewrite Hx. simpl. apply IH, Hp.
Qed.

Lemma skipn_exact {A} (p s : list A) : skipn (length p) (p ++ s) = s.
Proof. induction p; simpl; auto. Qed.

(** Where a match of [p] on [a ++ rest] ends: inside [a], or [a] is a
    beginning of [p] and the match runs on into [rest]. *)
Lemma startswith_straddle p a rest :
  startswith p (a ++ rest) = true ->
  startswith p a = true \/
  exists p2, p = a ++ p2 /\ startswith p2 rest = true.
Proof.
  revert a. induction p as [|x p IH]; intros a H.
  - left. reflexivity.
  - destruct a as [|y a].
    + right. exists (x :: p). split; [reflexivity | exact H].
    + simpl in H. apply andb_true_iff in H as [Hx Hp].
      destruct (IH a Hp) as [Hin | [p2 [-> H2]]].
      * left. simpl. rewrite Hx, Hin. reflexivity.
      * right. exists p2. apply N.eqb_eq in Hx. subst y. split; auto.
Qed.

Lemma contains_false_inv p c s :
  contains p (c :: s) = false ->
  startswith p (c :: s) = false /\ contains p s = false.
Proof. simpl. intros H. apply orb_false_iff in H. exact H. Qed.

Lemma contains_head p s : contains p s = false -> startswith p s = false.
Proof.
  destruct s; simpl; intros H; apply orb_false_iff in H; apply H.
Qed.

Lemma contains_app_r p a b :
  contains p b = true -> contains p (a ++ b) = true.
Proof.
  intros H. induction a as [|c a IH]; simpl; [exact H|].
  simpl in IH. rewrite IH. apply orb_true_r.
Qed.

Lemma contains_app_l p a b :
  contains p a = true -> contains p (a ++ b) = true.
Proof.
  induction a as [|c a IH]; simpl; intros H.
  - rewrite orb_false_r in H. destruct p; [|discriminate].
    destruct b; reflexivity.
  - apply orb_true_iff in H as [H|H].
    + change (c :: a ++ b) with ((c :: a) ++ b).
      rewrite (startswith_weaken _ _ b H). reflexivity.
    + rewrite (IH H). apply orb_true_r.
Qed.

(** *** [replace] *)

Lemma replace_absent p new s :
  contains p s = false -> replace p new s = s.
Proof.
  destruct p as [|o p']; [destruct s; discriminate|].
  induction s as [|c s IH]; intros H; simp replace; [reflexivity|].
  apply contains_false_inv in H as [Hhd Htl].
  rewrite Hhd. f_equal. apply IH, Htl.
Qed.

Lemma replace_prefix o p' new s :
  replace (o :: p') new ((o :: p') ++ s) = new ++ replace (o :: p') new s.
Proof.
  simpl app. simp replace.
  change (o :: p' ++ s) with ((o :: p') ++ s).
  rewrite startswith_app, skipn_exact. reflexivity.
Qed.

Lemma replace_skip o p' new c s :
  startswith (o :: p') (c :: s) = false ->
  replace (o :: p') new (c :: s) = c :: replace (o :: p') new s.
Proof. intros H. rewrite replace_equation_3, H. reflexivity. Qed.

Lemma replace_whatsapp new s :
  replace whatsapp new (whatsapp ++ s) = new ++ replace whatsapp new s.
Proof. exact (replace_prefix _ _ new s). Qed.

Lemma replace_whatsapp_skip new c s :
  startswith whatsapp (c :: s) = false ->
  replace whatsapp new (c :: s) = c :: replace whatsapp new s.
Proof. exact (replace_skip _ _ new c s). Qed.

Lemma prefixed_S k rest : prefixed (S k) rest = whatsapp ++ prefixed k rest.
Proof. unfold prefixed. cbn [repeat concat]. rewrite <- app_assoc. reflexivity. Qed.

Lemma replace_prefixed k rest :
  contains whatsapp rest = false ->
  replace whatsapp [] (prefixed k rest) = rest.
Proof.
  intros H. induction k as [|k IH].
  - apply replace_absent, H.
  - rewrite prefixed_S, replace_whatsapp. exact IH.
Qed.

(** The channel prefix has no border: its first character, [w], does not
    occur again in it.  So a match cannot begin before an occurrence and end
    inside it. *)
Lemma whatsapp_no_border a rest :
  a <> [] ->
  startswith whatsapp (a ++ whatsapp ++ rest) = true ->
  startswith whatsapp a = true.
Proof.
  intros Ha H.
  apply startswith_straddle in H as [H | [p2 [Hp H2]]]; [exact H|].
  destruct p2 as [|x p2].
  - rewrite app_nil_r in Hp. subst a.
    rewrite <- (app_nil_r whatsapp) at 2. apply startswith_app.
  - exfalso. destruct a as [|c a]; [congruence|].
    simpl in H2. apply andb_true_iff in H2 as [Hx _].
    apply N.eqb_eq in Hx. subst x.
    assert (Hin : In 119%N (tl whatsapp)).
    { rewrite Hp. simpl. apply in_or_app. right. left. reflexivity. }
    simpl in Hin. intuition discriminate.
Qed.

Lemma replace_inner a b :
  contains whatsapp a = false ->
  replace whatsapp [] (a ++ whatsapp ++ b) = a ++ replace whatsapp [] b.
Proof.
  induction a as [|c a IH]; intros H.
  - change ([] ++ whatsapp ++ b) with (whatsapp ++ b).
    rewrite replace_whatsapp. reflexivity.
  - apply contains_false_inv in H as [Hhd Htl].
    assert (Hno : startswith whatsapp ((c :: a) ++ whatsapp ++ b) = false).
    { destruct (startswith whatsapp ((c :: a) ++ whatsapp ++ b)) eqn:E; [|reflexivity].
      apply whatsapp_no_border in E; [congruence | discriminate]. }
    change ((c :: a) ++ whatsapp ++ b) with (c :: (a ++ whatsapp ++ b)) in *.
    rewrite (replace_whatsapp_skip [] c _ Hno).
    simpl. f_equal. apply IH, Htl.
Qed.

(** *** [strip] *)

Lemma lstrip_suffix s : exists t, s = t ++ lstrip s.
Proof.
  induction s as [|c s [t IH]]; [exists []; reflexivity|].
  simpl. destruct (isspace c).
  - exists (c :: t). simpl. f_equal. exact IH.
  - exists []. reflexivity.
Qed.

Lemma rstrip_prefix s : exists t, s = rstrip s ++ t.
Proof.
  unfold rstrip. destruct (lstrip_suffix (rev s)) as [t H].
  exists (rev t). rewrite <- rev_app_distr, <- H, rev_involutive. reflexivity.
Qed.

Lemma strip_infix s : exists t u, s = t ++ strip s ++ u.
Proof.
  unfold strip. destruct (lstrip_suffix s) as [t Ht].
  destruct (rstrip_prefix (lstrip s)) as [u Hu].
  exists t, u. rewrite <- Hu. exact Ht.
Qed.

Lemma contains_strip p s :
  contains p s = false -> contains p (strip s) = false.
Proof.
  intros H. destruct (contains p (strip s)) eqn:E; [|reflexivity].
  destruct (strip_infix s) as [t [u Hs]].
  rewrite Hs in H. rewrite contains_app_r in H; [discriminate|].
  apply contains_app_l, E.
Qed.

Lemma lstrip_clean_head s : clean_head (lstrip s).
Proof.
  induction s as [|c s IH]; simpl; [exact I|].
  destruct (isspace c) eqn:E; [exact IH | exact E].
Qed.

Lemma lstrip_id s : clean_head s -> lstrip s = s.
Proof. destruct s as [|c s]; simpl; [reflexivity|]. intros ->. reflexivity. Qed.

Lemma lstrip_idem s : lstrip (lstrip s) = lstrip s.
Proof. apply lstrip_id, lstrip_clean_head. Qed.

Lemma rstrip_idem s : rstrip (rstrip s) = rstrip s.
Proof. unfold rstrip. rewrite rev_involutive, lstrip_idem. reflexivity. Qed.

Lemma rstrip_clean_head s : clean_head s -> clean_head (rstrip s).
Proof.
  intros H. destruct (rstrip_prefix s) as [t Ht].
  destruct (rstrip s) as [|c r]; [exact I|].
  rewrite Ht in H. exact H.
Qed.

Lemma strip_idem s : strip (strip s) = strip s.
Proof.
  unfold strip at 1 2.
  rewrite (lstrip_id (rstrip (lstrip s))).
  - apply rstrip_idem.
  - apply rstrip_clean_head, lstrip_clean_head.
Qed.

(** *** [leading] *)

Lemma leading_none p s : startswith p s = false -> leading p s = 0.
Proof.
  destruct p as [|o p']; [discriminate|].
  destruct s as [|c s]; intros H; simp leading; [reflexivity|].
  rewrite H. reflexivity.
Qed.

Lemma leading_prefix o p' s :
  leading (o :: p') ((o :: p') ++ s) = S (leading (o :: p') s).
Proof.
  simpl app. simp leading.
  change (o :: p' ++ s) with ((o :: p') ++ s).
  rewrite startswith_app, skipn_exact. reflexivity.
Qed.

Lemma leading_whatsapp s :
  leading whatsapp (whatsapp ++ s) = S (leading whatsapp s).
Proof. exact (leading_prefix _ _ s). Qed.

(** *** [format_number] *)

Lemma format_number_prefixed k rest :
  contains whatsapp rest = false ->
  format_number (prefixed k rest) = whatsapp ++ strip rest.
Proof.
  intros H. unfold format_number. rewrite (replace_prefixed k rest H). reflexivity.
Qed.

Lemma format_number_head x : exists r, format_number x = 119%N :: r.
Proof. unfold format_number. eexists. reflexivity. Qed.

Lemma format_number_not_system x : format_number x <> system.
Proof.
  destruct (format_number_head x) as [r ->]. discriminate.
Qed.

(** *** The claims about normalization *)

(** C2, as the specification states it, fails: ["whatswhatsapp:app:1"]
    starts with no copy of the channel prefix, the single pass of [replace]
    joins the two halves around the deleted occurrence into a new one, and
    a second normalization deletes what the first one left. *)
Lemma format_number_twice_differs :
  leading whatsapp (lit "whatswhatsapp:app:1"%string) <= 1 /\
  format_number (format_number (lit "whatswhatsapp:app:1"%string))
  <> format_number (lit "whatswhatsapp:app:1"%string).
Proof. split; [vm_compute; lia | vm_compute; discriminate]. Qed.

(** C2, amended: normalization is idempotent on every input made of
    copies of the channel prefix (none, one or more) followed by a rest in
    which the prefix does not occur. *)
Theorem format_number_idempotent k rest :
  contains whatsapp rest = false ->
  format_number (format_number (prefixed k rest)) = format_number (prefixed k rest).
Proof.
  intros H. rewrite (format_number_prefixed k rest H).
  pose proof (contains_strip whatsapp rest H) as Hs.
  change (whatsapp ++ strip rest) with (prefixed 1 (strip rest)) at 1.
  rewrite (format_number_prefixed 1 (strip rest) Hs).
  rewrite strip_idem. reflexivity.
Qed.

Lemma format_number_idempotent_witness :
  contains whatsapp (lit " +5511999 "%string) = false /\
  format_number (format_number (prefixed 1 (lit " +5511999 "%string)))
  = format_number (prefixed 1 (lit " +5511999 "%string)).
Proof.
  split; [reflexivity|].
  apply (format_number_idempotent 1 (lit " +5511999 "%string)). reflexivity.
Defined.

(** C5, as the specification states it, fails: the source deletes the
    channel prefix wherever it occurs, the specification's steps only at the
    leading position. *)
Lemma format_number_deletes_inner :
  format_number (lit "1whatsapp:2"%string) = lit "whatsapp:12"%string /\
  normalize_spec (lit "1whatsapp:2"%string) = lit "whatsapp:1whatsapp:2"%string /\
  format_number (lit "1whatsapp:2"%string) <> normalize_spec (lit "1whatsapp:2"%string).
Proof. repeat split; vm_compute; discriminate. Qed.

(** C5, amended: for a string [a] in which the channel prefix does not
    occur, normalization of [a] and of [whatsapp ++ a] follows the steps of
    the specification (strip the leading prefix, trim, prepend one prefix);
    an occurrence behind [a] is deleted all the same, and the scan goes on
    behind it. *)
Theorem format_number_steps a b :
  contains whatsapp a = false ->
  format_number a = normalize_spec a /\
  format_number (whatsapp ++ a) = normalize_spec (whatsapp ++ a) /\
  format_number (a ++ whatsapp ++ b)
  = whatsapp ++ strip (a ++ replace whatsapp [] b).
Proof.
  intros H. unfold format_number, normalize_spec, strip_leading.
  repeat split.
  - rewrite (contains_head whatsapp a H), (replace_absent whatsapp [] a H).
    reflexivity.
  - rewrite startswith_app, skipn_exact, replace_whatsapp.
    rewrite (replace_absent whatsapp [] a H). reflexivity.
  - rewrite (replace_inner a b H). reflexivity.
Qed.

Lemma format_number_steps_witness :
  contains whatsapp (lit " 12"%string) = false /\
  format_number (lit " 12"%string) = normalize_spec (lit " 12"%string) /\
  format_number (whatsapp ++ lit " 12"%string)
  = normalize_spec (whatsapp ++ lit " 12"%string) /\
  format_number (lit " 12"%string ++ whatsapp ++ lit "34whatsapp:5"%string)
  = whatsapp ++ strip (lit " 12"%string ++ replace whatsapp [] (lit "34whatsapp:5"%string)).
Proof.
  split; [reflexivity|].
  apply (format_number_steps (lit " 12"%string) (lit "34whatsapp:5"%string)).
  reflexivity.
Defined.

(** C8, as the specification states it, fails: the input starts with no
    copy of the channel prefix and the output starts with two. *)
Lemma format_number_two_prefixes :
  leading whatsapp (lit "whatswhatsapp:app:+55"%string) <= 1 /\
  leading whatsapp (format_number (lit "whatswhatsapp:app:+55"%string)) = 2.
Proof. split; [vm_compute; lia | vm_compute; reflexivity]. Qed.

(** C8, amended: [format_number] is a total function, and for an input made
    of copies of the channel prefix (none, one, two or more) followed by a
    rest in which the prefix does not occur, the output is one prefix
    followed by the trimmed rest, and starts with exactly one prefix. *)
Theorem format_number_one_prefix k rest :
  contains whatsapp rest = false ->
  format_number (prefixed k rest) = whatsapp ++ strip rest /\
  leading whatsapp (format_number (prefixed k rest)) = 1.
Proof.
  intros H. rewrite (format_number_prefixed k rest H). split; [reflexivity|].
  pose proof (contains_head _ _ (contains_strip whatsapp rest H)) as Hs.
  rewrite leading_whatsapp, (leading_none _ _ Hs). reflexivity.
Qed.

Lemma format_number_one_prefix_witness :
  contains whatsapp (lit " +5511999"%string) = false /\
  format_number (prefixed 2 (lit " +5511999"%string))
  = whatsapp ++ strip (lit " +5511999"%string) /\
  leading whatsapp (format_number (prefixed 2 (lit " +5511999"%string))) = 1.
Proof.
  split; [reflexivity|].
  apply (format_number_one_prefix 2 (lit " +5511999"%string)). reflexivity.
Defined.

(** *** Examples *)

Example format_raw :
  format_number (lit "+5511999"%string) = lit "whatsapp:+5511999"%string.
Proof. reflexivity. Qed.

Example format_prefixed :
  format_number (lit "whatsapp: +5511999 "%string) = lit "whatsapp:+5511999"%string.
Proof. reflexivity. Qed.

Example format_double :
  format_number (lit "whatsapp:whatsapp:+5511999"%string)
  = lit "whatsapp:+5511999"%string.
Proof. reflexivity. Qed.

Example format_upper :
  format_number (lit "WhatsApp:+5511999"%string)
  = lit "whatsapp:WhatsApp:+5511999"%string.
Proof. reflexivity. Qed.

End StringFacts.
(* ===================================================================== *)
(** * Part 4: facts about the provisioning functions and the poll loop    *)
(* ===================================================================== *)

Lemma eval_returns {R} fuel (t : itree void1 R) r :
  eval_fuel fuel t = Some r -> returns t r.
Proof.
  revert t. induction fuel as [|n IH]; intros t H; [discriminate|].
  simpl in H. unfold returns.
  rewrite (itree_eta t).
  destruct (observe t) as [r'|t'|X e k].
  - inversion H. reflexivity.
  - rewrite tau_eutt. apply IH, H.
  - destruct e.
Qed.

Lemma returns_inj {R} (t : itree void1 R) r1 r2 :
  returns t r1 -> returns t r2 -> r1 = r2.
Proof.
  unfold returns. intros H1 H2.
  rewrite H1 in H2. apply eutt_inv_Ret in H2. exact H2.
Qed.

Lemma last_message_app init m : last_message (init ++ [m]) = Some m.
Proof.
  induction init as [|x init IH]; [reflexivity|].
  simpl. rewrite IH. destruct (init ++ [m]) eqn:E; [|reflexivity].
  destruct init; discriminate.
Qed.

Lemma last_message_inv messages m :
  last_message messages = Some m -> exists init, messages = init ++ [m].
Proof.
  induction messages as [|x ms IH]; [discriminate|].
  destruct ms as [|y ms].
  - intros H. inversion H. exists []. reflexivity.
  - intros H. destruct (IH H) as [init E]. exists (x :: init).
    simpl. f_equal. exact E.
Qed.

Lemma last_message_none messages :
  last_message messages = None -> messages = [].
Proof.
  induction messages as [|x ms IH]; [reflexivity|].
  destruct ms as [|y ms]; [discriminate|].
  intros H. specialize (IH H). discriminate.
Qed.

Lemma sid_differs_spec s last_sid :
  sid_differs s last_sid = true <-> Some s <> last_sid.
Proof.
  destruct last_sid as [s'|]; simpl; [|split; [discriminate | reflexivity]].
  rewrite negb_true_iff, str_eqb_neq. split; congruence.
Qed.

(** The guard of the loop body, in words. *)
Lemma reacting_spec user_number last_sid messages m :
  reacting user_number last_sid messages = Some m <->
  (exists init, messages = init ++ [m]) /\
  Some (sid m) <> last_sid /\ author m = user_number.
Proof.
  unfold reacting. split.
  - destruct (last_message messages) as [x|] eqn:E; [|discriminate].
    destruct (sid_differs (sid x) last_sid && str_eqb (author x) user_number) eqn:G;
      [|discriminate].
    intros H. inversion H. subst x.
    apply andb_true_iff in G as [G1 G2].
    apply sid_differs_spec in G1. apply str_eqb_eq in G2.
    split; [apply last_message_inv, E | split; assumption].
  - intros [[init ->] [H1 H2]]. rewrite last_message_app.
    apply sid_differs_spec in H1. apply str_eqb_eq in H2.
    rewrite H1, H2. reflexivity.
Qed.

Lemma collect_app {A} (f : entry -> option A) tr1 tr2 :
  collect f (tr1 ++ tr2) = collect f tr1 ++ collect f tr2.
Proof.
  induction tr1 as [|e tr1 IH]; [reflexivity|].
  simpl. destruct (f e); simpl; rewrite IH; reflexivity.
Qed.

Section Running.

Variable World : Type.
Variable respond : forall X, twilioE X -> World -> World * X.

Lemma run_ret L A (a : A) (l : L) s :
  returns (run respond (ret a) l s) (s, (l, inr a)).
Proof. unfold returns, run, ret. rewrite interp_state_ret. reflexivity. Qed.

Lemma run_raise L A (e : exn) (l : L) s :
  returns (run respond (@raise L A e) l s) (s, (l, inl e)).
Proof. unfold returns, run, raise. rewrite interp_state_ret. reflexivity. Qed.

Lemma run_get L (l : L) s :
  returns (run respond get l s) (s, (l, inr l)).
Proof. unfold returns, run, get. rewrite interp_state_ret. reflexivity. Qed.

Lemma run_put L (l l' : L) s :
  returns (run respond (put l') l s) (s, (l', inr tt)).
Proof. unfold returns, run, put. rewrite interp_state_ret. reflexivity. Qed.

Lemma run_call L A (e : twilioE (result A)) (l : L) w tr w' r :
  respond _ e w = (w', r) ->
  returns (run respond (call e) l (w, tr)) ((w', tr ++ [Entry e r]), (l, r)).
Proof.
  intros H. unfold returns, run, call.
  rewrite interp_state_bind, interp_state_trigger.
  unfold provider. cbn. rewrite H, bind_ret_l.
  cbn. rewrite interp_state_ret. reflexivity.
Qed.

Lemma run_sleep L (l : L) n w tr w' :
  respond _ (Sleep n) w = (w', tt) ->
  returns (run respond (sleep n) l (w, tr))
          ((w', tr ++ [Entry (Sleep n) tt]), (l, inr tt)).
Proof.
  intros H. unfold returns, run, sleep.
  rewrite interp_state_bind, interp_state_trigger.
  unfold provider. cbn. rewrite H, bind_ret_l.
  cbn. rewrite interp_state_ret. reflexivity.
Qed.

Lemma run_bind_ok L A B (m : py L A) (k : A -> py L B) l s s1 l1 a out :
  returns (run respond m l s) (s1, (l1, inr a)) ->
  returns (run respond (k a) l1 s1) out ->
  returns (run respond (bind m k) l s) out.
Proof.
  unfold returns, run, bind. intros H1 H2.
  rewrite interp_state_bind, H1, bind_ret_l. cbn. exact H2.
Qed.

Lemma run_bind_raise L A B (m : py L A) (k : A -> py L B) l s s1 l1 e :
  returns (run respond m l s) (s1, (l1, inl e)) ->
  returns (run respond (bind m k) l s) (s1, (l1, inl e)).
Proof.
  unfold returns, run, bind. intros H1.
  rewrite interp_state_bind, H1, bind_ret_l. cbn.
  rewrite interp_state_ret. reflexivity.
Qed.

Lemma run_lift L A (r : result A) (l : L) s :
  returns (run respond (lift r) l s) (s, (l, r)).
Proof. unfold returns, run, lift. rewrite interp_state_ret. reflexivity. Qed.

Lemma run_print L (args : list str) (l : L) s :
  forallb encodable args = true ->
  returns (run respond (print args) l s) (s, (l, inr tt)).
Proof. intros H. unfold print. rewrite H. apply run_ret. Qed.

Lemma run_print_raises L (args : list str) (l : L) s :
  forallb encodable args = false ->
  returns (run respond (print args) l s) (s, (l, inl UnicodeEncodeError)).
Proof. intros H. unfold print. rewrite H. apply run_raise. Qed.

End Running.

Lemma encodable_app a b : encodable (a ++ b) = encodable a && encodable b.
Proof.
  unfold encodable. rewrite existsb_app, negb_orb. reflexivity.
Qed.

Lemma print_labelled label text :
  encodable label = true ->
  forallb encodable [label; text] = encodable text.
Proof.
  intros H. cbn [forallb]. rewrite H, andb_true_r. reflexivity.
Qed.

Lemma print_line label text :
  encodable label = true ->
  forallb encodable [label ++ text] = encodable text.
Proof.
  intros H. cbn [forallb]. rewrite encodable_app, H, andb_true_r. reflexivity.
Qed.

(** ** The loop body and its step relation *)

Section Loop.

Variable World : Type.
Variable respond : forall X, twilioE X -> World -> World * X.
Variable conversation : Conversation.
Variable user_number : str.

(** The statements between the listing and the sleep. *)
Lemma run_guard last_sid messages s :
  reacting user_number last_sid messages = None ->
  returns
    (run respond (match last_message messages with
           | Some last_msg =>
               last_sid <- get ;;
               if sid_differs (sid last_msg) last_sid
                  && str_eqb (author last_msg) user_number
               then print [from_phone; body last_msg] ;;
                    print [from_server; reply] ;;
                    _ <- call (MessagesCreate conversation system reply) ;;
                    put (Some (sid last_msg))
               else ret tt
           | None => ret tt
           end) last_sid s)
    (s, (last_sid, inr tt)).
Proof.
  unfold reacting. destruct (last_message messages) as [m|]; [|intros _; apply run_ret].
  intros H. eapply run_bind_ok; [apply run_get|].
  destruct (sid_differs (sid m) last_sid && str_eqb (author m) user_number);
    [discriminate | apply run_ret].
Qed.

Lemma run_react_garbled last_sid messages last_msg s :
  reacting user_number last_sid messages = Some last_msg ->
  encodable (body last_msg) = false ->
  returns
    (run respond (match last_message messages with
           | Some last_msg =>
               last_sid <- get ;;
               if sid_differs (sid last_msg) last_sid
                  && str_eqb (author last_msg) user_number
               then print [from_phone; body last_msg] ;;
                    print [from_server; reply] ;;
                    _ <- call (MessagesCreate conversation system reply) ;;
                    put (Some (sid last_msg))
               else ret tt
           | None => ret tt
           end) last_sid s)
    (s, (last_sid, inl UnicodeEncodeError)).
Proof.
  unfold reacting. destruct (last_message messages) as [m|]; [|discriminate].
  intros H Hb. eapply run_bind_ok; [apply run_get|].
  destruct (sid_differs (sid m) last_sid && str_eqb (author m) user_number);
    [|discriminate].
  inversion H. subst m.
  eapply run_bind_raise. apply run_print_raises.
  rewrite print_labelled; [exact Hb | reflexivity].
Qed.

Lemma run_react last_sid messages last_msg w tr w' r :
  reacting user_number last_sid messages = Some last_msg ->
  encodable (body last_msg) = true ->
  respond _ (MessagesCreate conversation system reply) w = (w', r) ->
  returns
    (run respond (match last_message messages with
           | Some last_msg =>
               last_sid <- get ;;
               if sid_differs (sid last_msg) last_sid
                  && str_eqb (author last_msg) user_number
               then print [from_phone; body last_msg] ;;
                    print [from_server; reply] ;;
                    _ <- call (MessagesCreate conversation system reply) ;;
                    put (Some (sid last_msg))
               else ret tt
           | None => ret tt
           end) last_sid (w, tr))
    ((w', tr ++ [Entry (MessagesCreate conversation system reply) r]),
     match r with
     | inl e => (last_sid, inl e)
     | inr _ => (Some (sid last_msg), inr tt)
     end).
Proof.
  unfold reacting. destruct (last_message messages) as [m|]; [|discriminate].
  intros H Hb Hc. eapply run_bind_ok; [apply run_get|].
  destruct (sid_differs (sid m) last_sid && str_eqb (author m) user_number);
    [|discriminate].
  inversion H. subst m.
  eapply run_bind_ok;
    [apply run_print; rewrite print_labelled; [exact Hb | reflexivity]|].
  eapply run_bind_ok; [apply run_print; reflexivity|].
  destruct r as [e|m'].
  - eapply run_bind_raise. apply run_call, Hc.
  - eapply run_bind_ok; [apply run_call, Hc | apply run_put].
Qed.

Lemma tick_sound last_sid w tr out :
  tick respond conversation user_number last_sid w tr out ->
  returns (run respond (poll_body conversation user_number) last_sid (w, tr)) out.
Proof.
  intros H. unfold poll_body. destruct H as
    [w1 e Hl | w1 ms w2 Hl Hg Hs | w1 ms m Hl Hg Hb | w1 ms m w2 e Hl Hg Hb Hc
     | w1 ms m w2 m' w3 Hl Hg Hb Hc Hs].
  - eapply run_bind_raise. apply run_call, Hl.
  - eapply run_bind_ok; [apply run_call, Hl|].
    eapply run_bind_ok; [apply run_guard, Hg|].
    replace (tr ++ [Entry (MessagesList conversation) (inr ms); Entry (Sleep 1) tt])
      with ((tr ++ [Entry (MessagesList conversation) (inr ms)]) ++ [Entry (Sleep 1) tt])
      by (rewrite <- app_assoc; reflexivity).
    apply run_sleep, Hs.
  - eapply run_bind_ok; [apply run_call, Hl|].
    eapply run_bind_raise. apply (run_react_garbled last_sid ms m _ Hg Hb).
  - eapply run_bind_ok; [apply run_call, Hl|].
    replace (tr ++ [Entry (MessagesList conversation) (inr ms);
                    Entry (MessagesCreate conversation system reply) (inl e)])
      with ((tr ++ [Entry (MessagesList conversation) (inr ms)])
            ++ [Entry (MessagesCreate conversation system reply) (inl e)])
      by (rewrite <- app_assoc; reflexivity).
    eapply run_bind_raise.
    apply (run_react last_sid ms m w1 _ w2 (inl e) Hg Hb Hc).
  - eapply run_bind_ok; [apply run_call, Hl|].
    eapply run_bind_ok;
      [apply (run_react last_sid ms m w1 _ w2 (inr m') Hg Hb Hc)|].
    replace (tr ++ [Entry (MessagesList conversation) (inr ms);
                    Entry (MessagesCreate conversation system reply) (inr m');
                    Entry (Sleep 1) tt])
      with (((tr ++ [Entry (MessagesList conversation) (inr ms)])
             ++ [Entry (MessagesCreate conversation system reply) (inr m')])
            ++ [Entry (Sleep 1) tt])
      by (rewrite <- !app_assoc; reflexivity).
    apply run_sleep, Hs.
Qed.

(** The provider answers every call, so every pass takes a step. *)
Lemma tick_total last_sid w tr :
  exists out, tick respond conversation user_number last_sid w tr out.
Proof.
  destruct (respond _ (MessagesList conversation) w) as [w1 [e|ms]] eqn:Hl.
  - eexists. eapply tick_list_raises, Hl.
  - destruct (reacting user_number last_sid ms) as [m|] eqn:Hg.
    + destruct (encodable (body m)) eqn:Hb.
      * destruct (respond _ (MessagesCreate conversation system reply) w1)
          as [w2 [e|m']] eqn:Hc.
        -- eexists. eapply tick_create_raises; eassumption.
        -- destruct (respond _ (Sleep 1) w2) as [w3 []] eqn:Hs.
           eexists. eapply tick_reply; eassumption.
      * eexists. eapply tick_print_raises; eassumption.
    + destruct (respond _ (Sleep 1) w1) as [w2 []] eqn:Hs.
      eexists. eapply tick_quiet; eassumption.
Qed.

Lemma tick_complete last_sid w tr out :
  returns (run respond (poll_body conversation user_number) last_sid (w, tr)) out ->
  tick respond conversation user_number last_sid w tr out.
Proof.
  intros H. destruct (tick_total last_sid w tr) as [out' Hs].
  rewrite (returns_inj _ _ _ H (tick_sound _ _ _ _ Hs)). exact Hs.
Qed.

End Loop.

(** ** The loop *)

Section Forever.

Variable World : Type.
Variable respond : forall X, twilioE X -> World -> World * X.



(** A pass that raises ends the loop, with the locals of the pass. *)
Lemma while_true_raises L (body : py L unit) l s s1 l1 e :
  returns (run respond body l s) (s1, (l1, inl e)) ->
  returns (run respond (while_true body) l s) (s1, (l1, inl e)).
Proof.
  unfold returns, run, while_true. intros H.
  rewrite unfold_iter, !interp_state_bind, H, bind_ret_l. cbn.
  rewrite interp_state_ret, bind_ret_l. cbn.
  rewrite interp_state_ret. reflexivity.
Qed.



End Forever.

(** ** The claims about the poll loop *)

Section PollClaims.

Variable World : Type.
Variable respond : forall X, twilioE X -> World -> World * X.
Variable conversation : Conversation.

(** A pass of the loop that fetched [messages] issues a [messages.create]
    call if and only if the list is not empty, the [sid] of its last
    element differs from [last_sid], the author of its last element is
    [user_number] and the body of its last element can be printed.  The
    call goes to the conversation, with author ["system"] and the fixed
    body, and when it is answered with a message, [last_sid] is the [sid]
    of the last element afterwards. *)
Theorem poll_body_reacts_iff user_number last_sid w tr w1 messages :
  respond _ (MessagesList conversation) w = (w1, inr messages) ->
  exists w' new last_sid' r,
    returns (run respond (poll_body conversation user_number) last_sid (w, tr))
            ((w', tr ++ new), (last_sid', r)) /\
    (created new <> [] <->
     exists init last_msg,
       messages = init ++ [last_msg] /\
       Some (sid last_msg) <> last_sid /\
       author last_msg = user_number /\
       encodable (body last_msg) = true) /\
    (forall c a b ans,
       In (c, a, b, ans) (created new) ->
       c = conversation /\ a = system /\ b = reply /\
       forall m, ans = inr m ->
         exists init last_msg,
           messages = init ++ [last_msg] /\ last_sid' = Some (sid last_msg)).
Proof.
  intros Hl.
  destruct (tick_total World respond conversation user_number last_sid w tr)
    as [out Hstep].
  pose proof (tick_sound _ _ _ _ _ _ _ _ Hstep) as Hrun.
  destruct Hstep as
    [w1' e Hl' | w1' ms w2 Hl' Hg Hs | w1' ms m Hl' Hg Hb
     | w1' ms m w2 e Hl' Hg Hb Hc | w1' ms m w2 m' w3 Hl' Hg Hb Hc Hs];
    rewrite Hl in Hl'; inversion Hl'; subst; clear Hl'.
  - do 4 eexists. split; [exact Hrun|]. cbn. split.
    + split; [congruence|]. intros [init [x [E [H1 [H2 _]]]]].
      assert (G : reacting (author x) last_sid (init ++ [x]) = Some x)
        by (apply reacting_spec; eauto).
      subst. congruence.
    + intros c a b ans [].
  - do 4 eexists. split; [exact Hrun|]. cbn. split.
    + split; [congruence|]. intros [init [x [E [H1 [H2 H3]]]]].
      assert (G : reacting (author x) last_sid (init ++ [x]) = Some x)
        by (apply reacting_spec; eauto).
      subst. rewrite G in Hg. inversion Hg. subst. congruence.
    + intros c a b ans [].
  - apply reacting_spec in Hg as [[init E] [H1 H2]].
    do 4 eexists. split; [exact Hrun|]. cbn. split.
    + split; [eauto 7 | discriminate].
    + intros c a b ans [H|[]]. inversion H. subst.
      repeat split; try reflexivity. discriminate.
  - apply reacting_spec in Hg as [[init E] [H1 H2]].
    do 4 eexists. split; [exact Hrun|]. cbn. split.
    + split; [eauto 7 | discriminate].
    + intros c a b ans [H|[]]. inversion H. subst.
      repeat split; try reflexivity. eauto.
Qed.

(** A newest message of [user_number] with a new [sid] whose body cannot
    be printed gets no reply: [print] raises before [messages.create], the
    pass and the loop end with [UnicodeEncodeError] after the listing, and
    [last_sid] is as it was. *)
Theorem unprintable_body_ends_loop user_number last_sid w tr w1 init last_msg :
  respond _ (MessagesList conversation) w = (w1, inr (init ++ [last_msg])) ->
  Some (sid last_msg) <> last_sid ->
  author last_msg = user_number ->
  encodable (body last_msg) = false ->
  returns (run respond (poll_body conversation user_number) last_sid (w, tr))
          ((w1, tr ++ [Entry (MessagesList conversation) (inr (init ++ [last_msg]))]),
           (last_sid, inl UnicodeEncodeError)) /\
  returns (run respond (while_true (poll_body conversation user_number))
             last_sid (w, tr))
          ((w1, tr ++ [Entry (MessagesList conversation) (inr (init ++ [last_msg]))]),
           (last_sid, inl UnicodeEncodeError)).
Proof.
  intros Hl H1 H2 Hb.
  assert (Hrun : returns
            (run respond (poll_body conversation user_number) last_sid (w, tr))
            ((w1, tr ++ [Entry (MessagesList conversation)
                               (inr (init ++ [last_msg]))]),
             (last_sid, inl UnicodeEncodeError))).
  { apply tick_sound. eapply tick_print_raises; [exact Hl | | exact Hb].
    apply reacting_spec. eauto. }
  split; [exact Hrun | apply while_true_raises, Hrun].
Qed.

(** C7.  With the configured address [format_number raw] as [user_number],
    a pass that fetched a list whose last element is authored ["system"]
    lists, sleeps and does nothing else, from every state of the loop:
    no call is made in between and [last_sid] keeps its value. *)
Theorem poll_body_ignores_system raw last_sid w tr w1 init last_msg :
  respond _ (MessagesList conversation) w = (w1, inr (init ++ [last_msg])) ->
  author last_msg = system ->
  returns (run respond (poll_body conversation (format_number raw)) last_sid (w, tr))
          ((fst (respond _ (Sleep 1) w1),
            tr ++ [Entry (MessagesList conversation) (inr (init ++ [last_msg]));
                   Entry (Sleep 1) tt]),
           (last_sid, inr tt)).
Proof.
  intros Hl Ha. apply tick_sound.
  eapply tick_quiet;
    [exact Hl | | destruct (respond _ (Sleep 1) w1) as [w2 []]; reflexivity].
  destruct (reacting (format_number raw) last_sid (init ++ [last_msg])) as [m|] eqn:G;
    [|reflexivity].
  apply reacting_spec in G as [[init' E] [_ H2]].
  apply app_inj_tail in E as [_ <-].
  exfalso. apply (format_number_not_system raw). congruence.
Qed.

(** C9.  When the pass reacts and [messages.create] raises, the pass ends
    with that exception after the two calls and [last_sid] has the value it
    had before the pass; the loop ends there, in the same way.  (The call is
    reached when the body of the message can be printed; when it cannot,
    the reaction fails before the call, and [last_sid] has the value it had
    before the pass all the same.) *)
Theorem failed_reply_keeps_last_sid user_number last_sid w tr w1 init last_msg w2 e :
  respond _ (MessagesList conversation) w = (w1, inr (init ++ [last_msg])) ->
  Some (sid last_msg) <> last_sid ->
  author last_msg = user_number ->
  respond _ (MessagesCreate conversation system reply) w1 = (w2, inl e) ->
  returns (run respond (poll_body conversation user_number) last_sid (w, tr))
          (if encodable (body last_msg)
           then
             ((w2, tr ++ [Entry (MessagesList conversation) (inr (init ++ [last_msg]));
                          Entry (MessagesCreate conversation system reply) (inl e)]),
              (last_sid, inl e))
           else
             ((w1, tr ++ [Entry (MessagesList conversation) (inr (init ++ [last_msg]))]),
              (last_sid, inl UnicodeEncodeError))) /\
  returns (run respond (while_true (poll_body conversation user_number)) last_sid (w, tr))
          (if encodable (body last_msg)
           then
             ((w2, tr ++ [Entry (MessagesList conversation) (inr (init ++ [last_msg]));
                          Entry (MessagesCreate conversation system reply) (inl e)]),
              (last_sid, inl e))
           else
             ((w1, tr ++ [Entry (MessagesList conversation) (inr (init ++ [last_msg]))]),
              (last_sid, inl UnicodeEncodeError))).
Proof.
  intros Hl H1 H2 Hc.
  assert (Hg : reacting user_number last_sid (init ++ [last_msg]) = Some last_msg)
    by (apply reacting_spec; eauto).
  destruct (encodable (body last_msg)) eqn:Hb.
  - assert (Hrun : returns
              (run respond (poll_body conversation user_number) last_sid (w, tr))
              ((w2, tr ++ [Entry (MessagesList conversation)
                                 (inr (init ++ [last_msg]));
                           Entry (MessagesCreate conversation system reply)
                                 (inl e)]),
               (last_sid, inl e))).
    { apply tick_sound. eapply tick_create_raises; eassumption. }
    split; [exact Hrun | apply while_true_raises, Hrun].
  - assert (Hrun : returns
              (run respond (poll_body conversation user_number) last_sid (w, tr))
              ((w1, tr ++ [Entry (MessagesList conversation)
                                 (inr (init ++ [last_msg]))]),
               (last_sid, inl UnicodeEncodeError))).
    { apply tick_sound. eapply tick_print_raises; eassumption. }
    split; [exact Hrun | apply while_true_raises, Hrun].
Qed.

End PollClaims.

Section PollTwice.

Variable World : Type.
Variable respond : forall X, twilioE X -> World -> World * X.
Variable conversation : Conversation.
Variable user_number : str.

(** C6, amended.  Two passes in a row that both fetched [messages] issue at
    most one [messages.create] call between them, and exactly one if and
    only if the first pass reacts: the list is not empty, the [sid] of its
    last element differs from [last_sid] and its author is [user_number]. *)
Theorem same_list_twice last_sid w messages s1 l1 s2 l2 :
  returns (run respond (poll_body conversation user_number) last_sid (w, []))
          (s1, (l1, inr tt)) ->
  returns (run respond (poll_body conversation user_number) l1 s1) (s2, (l2, inr tt)) ->
  fetched (snd s2) = [inr messages; inr messages] ->
  length (created (snd s2)) <= 1 /\
  (length (created (snd s2)) = 1 <->
   exists init last_msg,
     messages = init ++ [last_msg] /\
     Some (sid last_msg) <> last_sid /\
     author last_msg = user_number).
Proof.
  intros H1 H2 Hf. destruct s1 as [wa tra].
  apply tick_complete in H1. apply tick_complete in H2.
  inversion H1 as
    [ | w1 ms w2 Hl Hg Hs | | | w1 ms m w2 m' w3 Hl Hg Hb Hc Hs]; subst; clear H1;
  inversion H2 as
    [ | w1' ms' w2' Hl' Hg' Hs' | | | w1' ms' m2 w2' m2' w3' Hl' Hg' Hb' Hc' Hs'];
    subst; clear H2;
  cbn in Hf; inversion Hf; subst; clear Hf; cbn.
  - split; [lia|]. split; [discriminate|].
    intros [init [x [E [Hx1 Hx2]]]].
    assert (G : reacting user_number l2 messages = Some x)
      by (apply reacting_spec; eauto).
    congruence.
  - congruence.
  - split; [lia|]. split; [|reflexivity]. intros _.
    apply reacting_spec in Hg as [[init E] [Hx1 Hx2]]. eauto.
  - exfalso.
    apply reacting_spec in Hg as [[init E] _].
    apply reacting_spec in Hg' as [[init' E'] [Hne _]].
    rewrite E in E'. apply app_inj_tail in E' as [_ <-]. congruence.
Qed.

End PollTwice.

Section PollInvariant.

Variable World : Type.
Variable respond : forall X, twilioE X -> World -> World * X.
Variable conversation : Conversation.
Variable raw : str.

(** C10.  At every state the loop reaches, [last_sid] is [None] or the
    [sid] of a message whose author is the configured address
    [format_number raw], so not ["system"], and the trace holds the pass
    that fetched it as the last element and got its reply created. *)
Theorem last_sid_invariant s0 last_sid s :
  reachable respond conversation (format_number raw) s0 last_sid s ->
  last_sid = None \/ answered conversation (format_number raw) (snd s) last_sid.
Proof.
  induction 1 as [|l s l' s' _ IH Hstep]; [left; reflexivity|].
  destruct s as [w tr]. apply tick_complete in Hstep.
  inversion Hstep as
    [ | w1 ms w2 Hl Hg Hs | | | w1 ms m w2 m' w3 Hl Hg Hb Hc Hs]; subst; clear Hstep.
  - destruct IH as [IH | [before [init [x [m [after [E IH]]]]]]]; [left; exact IH|].
    right. cbn in E. subst tr.
    exists before, init, x, m,
      (after ++ [Entry (MessagesList conversation) (inr ms); Entry (Sleep 1) tt]).
    split; [|exact IH]. cbn. rewrite <- !app_assoc. reflexivity.
  - right. apply reacting_spec in Hg as [[init E] [_ Ha]]. subst ms.
    exists tr, init, m, m', [Entry (Sleep 1) tt].
    repeat split; auto.
    rewrite Ha. apply format_number_not_system.
Qed.

End PollInvariant.

(** ** The claims about provisioning *)

Lemma find_first {A} (f : A -> bool) before c after :
  Forall (fun x => f x = false) before -> f c = true ->
  find f (before ++ c :: after) = Some c.
Proof.
  intros Hb Hc. induction Hb as [|x before Hx _ IH]; simpl.
  - rewrite Hc. reflexivity.
  - rewrite Hx. exact IH.
Qed.

Lemma find_absent {A} (f : A -> bool) l :
  Forall (fun x => f x = false) l -> find f l = None.
Proof.
  induction 1 as [|x l Hx _ IH]; simpl; [reflexivity|].
  rewrite Hx. exact IH.
Qed.

Lemma app_two {A} (l : list A) a b : l ++ [a; b] = (l ++ [a]) ++ [b].
Proof. rewrite <- app_assoc. reflexivity. Qed.

(** *** The search through the participants *)

Lemma value_is_spec v s : value_is v s = true <-> v = Some s.
Proof.
  destruct v as [a|]; simpl; [|split; discriminate].
  rewrite str_eqb_eq. split; congruence.
Qed.

Lemma value_is_other v s : v <> Some s -> value_is v s = false.
Proof.
  intros H. destruct (value_is v s) eqn:E; [|reflexivity].
  apply value_is_spec in E. contradiction.
Qed.

Lemma any_found phone_number before p after :
  Forall (other_address phone_number) before ->
  bound_address p = inr (Some phone_number) ->
  any_address_is phone_number (before ++ p :: after) = inr true.
Proof.
  intros Hb Hp. induction Hb as [|q before [v [Hq Hv]] _ IH]; simpl.
  - rewrite Hp. simpl. rewrite str_eqb_refl. reflexivity.
  - rewrite Hq, (value_is_other v _ Hv). exact IH.
Qed.

Lemma any_absent phone_number listed :
  Forall (other_address phone_number) listed ->
  any_address_is phone_number listed = inr false.
Proof.
  induction 1 as [|q listed [v [Hq Hv]] _ IH]; simpl; [reflexivity|].
  rewrite Hq, (value_is_other v _ Hv). exact IH.
Qed.

Lemma any_raises phone_number before p after e :
  Forall (other_address phone_number) before ->
  bound_address p = inl e ->
  any_address_is phone_number (before ++ p :: after) = inl e.
Proof.
  intros Hb Hp. induction Hb as [|q before [v [Hq Hv]] _ IH]; simpl.
  - rewrite Hp. reflexivity.
  - rewrite Hq, (value_is_other v _ Hv). exact IH.
Qed.

(** The search raises what a subscript raises, nothing else. *)
Lemma any_exception phone_number listed e :
  any_address_is phone_number listed = inl e ->
  e = TypeError \/ e = KeyError address_key.
Proof.
  induction listed as [|p listed IH]; simpl; [discriminate|].
  unfold bound_address, subscript.
  destruct (messaging_binding p) as [d|]; [|intros H; inversion H; auto].
  destruct (lookup address_key d) as [v|]; [|intros H; inversion H; auto].
  destruct (value_is v phone_number); [discriminate | exact IH].
Qed.

(** *** The two functions, run *)

Section ProvisionRuns.

Variable World : Type.
Variable respond : forall X, twilioE X -> World -> World * X.
Variable L : Type.

Lemma run_get_or_create service (l : L) w tr w1 listed :
  respond _ (ConversationsList service) w = (w1, inr listed) ->
  returns (run respond (get_or_create_conversation service) l (w, tr))
    match find (fun c => str_eqb (friendly_name c) Friendly_Conversation) listed with
    | Some c =>
        ((w1, tr ++ [Entry (ConversationsList service) (inr listed)]), (l, inr c))
    | None =>
        ((fst (respond _ (ConversationsCreate service Friendly_Conversation) w1),
          tr ++ [Entry (ConversationsList service) (inr listed);
                 Entry (ConversationsCreate service Friendly_Conversation)
                       (snd (respond _ (ConversationsCreate service
                                          Friendly_Conversation) w1))]),
         (l, snd (respond _ (ConversationsCreate service Friendly_Conversation) w1)))
    end.
Proof.
  intros Hl. unfold get_or_create_conversation.
  eapply run_bind_ok; [apply run_call, Hl|].
  destruct (find _ listed) as [c|].
  - eapply run_bind_ok; [|apply run_ret].
    eapply run_bind_ok; [apply run_print; reflexivity | apply run_ret].
  - destruct (respond _ (ConversationsCreate service Friendly_Conversation) w1)
      as [w2 r] eqn:Hc.
    simpl. rewrite app_two. destruct r as [e|c].
    + eapply run_bind_raise. eapply run_bind_raise. apply run_call, Hc.
    + eapply run_bind_ok; [|apply run_ret].
      eapply run_bind_ok; [apply run_call, Hc|].
      eapply run_bind_ok; [apply run_print; reflexivity | apply run_ret].
Qed.

Lemma run_ensure conversation phone_number proxy_number (l : L) w tr w1 listed :
  respond _ (ParticipantsList conversation) w = (w1, inr listed) ->
  returns (run respond (ensure_participant conversation phone_number proxy_number)
             l (w, tr))
    match any_address_is phone_number listed with
    | inl e =>
        ((w1, tr ++ [Entry (ParticipantsList conversation) (inr listed)]),
         (l, inl e))
    | inr true =>
        ((w1, tr ++ [Entry (ParticipantsList conversation) (inr listed)]),
         (l, inr tt))
    | inr false =>
        if encodable phone_number && encodable proxy_number
        then
          ((fst (respond _ (ParticipantsCreate conversation phone_number
                                               proxy_number) w1),
            tr ++ [Entry (ParticipantsList conversation) (inr listed);
                   Entry (ParticipantsCreate conversation phone_number proxy_number)
                         (snd (respond _ (ParticipantsCreate conversation
                                            phone_number proxy_number) w1))]),
           (l, match snd (respond _ (ParticipantsCreate conversation phone_number
                                       proxy_number) w1) with
               | inl e => inl e
               | inr _ => inr tt
               end))
        else
          ((w1, tr ++ [Entry (ParticipantsList conversation) (inr listed)]),
           (l, inl UnicodeEncodeError))
    end.
Proof.
  intros Hl. unfold ensure_participant.
  eapply run_bind_ok; [apply run_call, Hl|].
  destruct (any_address_is phone_number listed) as [e|[|]].
  - eapply run_bind_raise. apply run_lift.
  - eapply run_bind_ok; [apply run_lift|]. cbn [negb].
    apply run_print. reflexivity.
  - eapply run_bind_ok; [apply run_lift|]. cbn [negb].
    destruct (encodable phone_number) eqn:Hp; cbn [andb].
    + destruct (encodable proxy_number) eqn:Hx.
      * eapply run_bind_ok;
          [apply run_print; rewrite print_line; [exact Hp | reflexivity]|].
        eapply run_bind_ok;
          [apply run_print; rewrite print_line; [exact Hx | reflexivity]|].
        destruct (respond _ (ParticipantsCreate conversation phone_number
                                                proxy_number) w1)
          as [w2 r] eqn:Hc.
        simpl. rewrite app_two. destruct r as [e|p].
        -- eapply run_bind_raise. apply run_call, Hc.
        -- eapply run_bind_ok; [apply run_call, Hc|].
           apply run_print. reflexivity.
      * eapply run_bind_ok;
          [apply run_print; rewrite print_line; [exact Hp | reflexivity]|].
        eapply run_bind_raise. apply run_print_raises.
        rewrite print_line; [exact Hx | reflexivity].
    + eapply run_bind_raise. apply run_print_raises.
      rewrite print_line; [exact Hp | reflexivity].
Qed.

End ProvisionRuns.

Section ProvisionClaims.

Variable World : Type.
Variable respond : forall X, twilioE X -> World -> World * X.
Variable L : Type.

(** C3.  When the listed conversations hold one with the label, the first
    such one is returned after the listing call alone; when they hold none,
    one [conversations.create] call with the label follows the listing and
    its answer, the created conversation, is returned. *)
Theorem get_or_create_conversation_spec service (l : L) w tr w1 listed :
  respond _ (ConversationsList service) w = (w1, inr listed) ->
  (forall before c after,
     listed = before ++ c :: after ->
     Forall (fun c' => friendly_name c' <> Friendly_Conversation) before ->
     friendly_name c = Friendly_Conversation ->
     returns (run respond (get_or_create_conversation service) l (w, tr))
             ((w1, tr ++ [Entry (ConversationsList service) (inr listed)]),
              (l, inr c))) /\
  (Forall (fun c' => friendly_name c' <> Friendly_Conversation) listed ->
   forall w2 r,
     respond _ (ConversationsCreate service Friendly_Conversation) w1 = (w2, r) ->
     returns (run respond (get_or_create_conversation service) l (w, tr))
             ((w2, tr ++ [Entry (ConversationsList service) (inr listed);
                          Entry (ConversationsCreate service Friendly_Conversation) r]),
              (l, r))).
Proof.
  intros Hl. split.
  - intros before c after -> Hb Hc.
    pose proof (run_get_or_create World respond L service l w tr w1 _ Hl) as H.
    rewrite find_first in H; [exact H | | apply str_eqb_eq, Hc].
    eapply Forall_impl; [|exact Hb]. intros a Ha. apply str_eqb_neq, Ha.
  - intros Hn w2 r Hc.
    pose proof (run_get_or_create World respond L service l w tr w1 _ Hl) as H.
    rewrite find_absent, Hc in H; [exact H|].
    eapply Forall_impl; [|exact Hn]. intros a Ha. apply str_eqb_neq, Ha.
Qed.

(** When a listed participant is bound to [phone_number] and the bound
    addresses before it can be read, nothing follows the listing call; when
    every bound address can be read and none is [phone_number], and the two
    numbers can be printed, one [participants.create] call follows, binding
    [phone_number] with [proxy_number]. *)
Theorem ensure_participant_spec conversation phone_number proxy_number
    (l : L) w tr w1 listed :
  respond _ (ParticipantsList conversation) w = (w1, inr listed) ->
  (forall before p after,
     listed = before ++ p :: after ->
     Forall (other_address phone_number) before ->
     bound_address p = inr (Some phone_number) ->
     returns (run respond (ensure_participant conversation phone_number proxy_number)
                l (w, tr))
             ((w1, tr ++ [Entry (ParticipantsList conversation) (inr listed)]),
              (l, inr tt))) /\
  (Forall (other_address phone_number) listed ->
   encodable phone_number = true ->
   encodable proxy_number = true ->
   forall w2 r,
     respond _ (ParticipantsCreate conversation phone_number proxy_number) w1
     = (w2, r) ->
     returns (run respond (ensure_participant conversation phone_number proxy_number)
                l (w, tr))
             ((w2, tr ++ [Entry (ParticipantsList conversation) (inr listed);
                          Entry (ParticipantsCreate conversation phone_number
                                                    proxy_number) r]),
              (l, match r with inl e => inl e | inr _ => inr tt end))).
Proof.
  intros Hl. split.
  - intros before p after -> Hb Hp.
    pose proof (run_ensure World respond L conversation phone_number proxy_number
                  l w tr w1 _ Hl) as H.
    rewrite (any_found _ _ _ _ Hb Hp) in H. exact H.
  - intros Hn Hp Hx w2 r Hc.
    pose proof (run_ensure World respond L conversation phone_number proxy_number
                  l w tr w1 _ Hl) as H.
    rewrite (any_absent _ _ Hn), Hp, Hx, Hc in H. exact H.
Qed.

End ProvisionClaims.

(** ** The claims at concrete inputs *)

Lemma get_or_create_conversation_spec_witness :
  mock_respond _ (ConversationsList None)
    (mock [conversation0; conversation1] [] [] false)
  = (mock [conversation0; conversation1] [] [] false,
     inr [conversation0; conversation1]) /\
  returns
    (run mock_respond (get_or_create_conversation None) tt
       (mock [conversation0; conversation1] [] [] false, []))
    ((mock [conversation0; conversation1] [] [] false,
      [Entry (ConversationsList None) (inr [conversation0; conversation1])]),
     (tt, inr conversation1)).
Proof.
  split; [reflexivity|].
  apply (proj1 (get_or_create_conversation_spec Mock mock_respond unit None tt
                  (mock [conversation0; conversation1] [] [] false) []
                  (mock [conversation0; conversation1] [] [] false)
                  [conversation0; conversation1] eq_refl)
               [conversation0] conversation1 []).
  - reflexivity.
  - constructor; [discriminate | constructor].
  - reflexivity.
Defined.

Lemma ensure_participant_spec_witness :
  mock_respond _ (ParticipantsList conversation1)
    (mock [conversation1] [bound_to twilio1 twilio1; bound_to user1 twilio1;
                           chat_participant] [] false)
  = (mock [conversation1] [bound_to twilio1 twilio1; bound_to user1 twilio1;
                           chat_participant] [] false,
     inr [bound_to twilio1 twilio1; bound_to user1 twilio1; chat_participant]) /\
  returns
    (run mock_respond (ensure_participant conversation1 user1 twilio1) tt
       (mock [conversation1] [bound_to twilio1 twilio1; bound_to user1 twilio1;
                              chat_participant] [] false, []))
    ((mock [conversation1] [bound_to twilio1 twilio1; bound_to user1 twilio1;
                            chat_participant] [] false,
      [Entry (ParticipantsList conversation1)
             (inr [bound_to twilio1 twilio1; bound_to user1 twilio1;
                   chat_participant])]),
     (tt, inr tt)).
Proof.
  split; [reflexivity|].
  apply (proj1 (ensure_participant_spec Mock mock_respond unit conversation1
                  user1 twilio1 tt
                  (mock [conversation1] [bound_to twilio1 twilio1;
                                         bound_to user1 twilio1;
                                         chat_participant] [] false)
                  []
                  (mock [conversation1] [bound_to twilio1 twilio1;
                                         bound_to user1 twilio1;
                                         chat_participant] [] false)
                  [bound_to twilio1 twilio1; bound_to user1 twilio1;
                   chat_participant] eq_refl)
               [bound_to twilio1 twilio1] (bound_to user1 twilio1)
               [chat_participant]).
  - reflexivity.
  - constructor; [|constructor].
    exists (Some twilio1). split; [reflexivity | discriminate].
  - reflexivity.
Defined.

Lemma poll_body_reacts_iff_witness :
  mock_respond _ (MessagesList conversation1) (mock [] [] [hi] false)
  = (mock [] [] [hi] false, inr [hi]) /\
  exists w' new last_sid' r,
    returns (run mock_respond (poll_body conversation1 user1) None
               (mock [] [] [hi] false, []))
            ((w', [] ++ new), (last_sid', r)) /\
    (created new <> [] <->
     exists init last_msg,
       [hi] = init ++ [last_msg] /\
       Some (sid last_msg) <> None /\
       author last_msg = user1 /\
       encodable (body last_msg) = true) /\
    (forall c a b ans,
       In (c, a, b, ans) (created new) ->
       c = conversation1 /\ a = system /\ b = reply /\
       forall m, ans = inr m ->
         exists init last_msg,
           [hi] = init ++ [last_msg] /\ last_sid' = Some (sid last_msg)).
Proof.
  split; [reflexivity|].
  apply (poll_body_reacts_iff Mock mock_respond conversation1 user1 None
           (mock [] [] [hi] false) [] (mock [] [] [hi] false) [hi]).
  reflexivity.
Defined.

Lemma poll_body_ignores_system_witness :
  mock_respond _ (MessagesList conversation1) (mock [] [] [hi; echo] false)
  = (mock [] [] [hi; echo] false, inr ([hi] ++ [echo])) /\
  author echo = system /\
  returns
    (run mock_respond (poll_body conversation1 (format_number (lit "+5511999"%string)))
       (Some (sid hi)) (mock [] [] [hi; echo] false, []))
    ((mock [] [] [hi; echo] false,
      [Entry (MessagesList conversation1) (inr [hi; echo]); Entry (Sleep 1) tt]),
     (Some (sid hi), inr tt)).
Proof.
  split; [reflexivity|]. split; [reflexivity|].
  apply (poll_body_ignores_system Mock mock_respond conversation1
           (lit "+5511999"%string) (Some (sid hi))
           (mock [] [] [hi; echo] false) [] (mock [] [] [hi; echo] false)
           [hi] echo); reflexivity.
Defined.

Lemma failed_reply_keeps_last_sid_witness :
  mock_respond _ (MessagesList conversation1) (mock [] [] [hi] true)
  = (mock [] [] [hi] true, inr ([] ++ [hi])) /\
  Some (sid hi) <> None /\
  author hi = user1 /\
  mock_respond _ (MessagesCreate conversation1 system reply) (mock [] [] [hi] true)
  = (mock [] [] [hi] true, inl (TwilioRestException 503)) /\
  returns
    (run mock_respond (while_true (poll_body conversation1 user1)) None
       (mock [] [] [hi] true, []))
    ((mock [] [] [hi] true,
      [Entry (MessagesList conversation1) (inr [hi]);
       Entry (MessagesCreate conversation1 system reply)
             (inl (TwilioRestException 503))]),
     (None, inl (TwilioRestException 503))).
Proof.
  split; [reflexivity|]. split; [discriminate|].
  split; [reflexivity|]. split; [reflexivity|].
  apply (proj2 (failed_reply_keeps_last_sid Mock mock_respond conversation1
                  user1 None (mock [] [] [hi] true) [] (mock [] [] [hi] true)
                  [] hi (mock [] [] [hi] true) (TwilioRestException 503)
                  eq_refl ltac:(discriminate) eq_refl eq_refl)).
Defined.

(** C6, as the specification states it, fails: two passes that both fetch
    the empty list end normally and create no reply, not one. *)
Lemma same_empty_list_twice :
  exists s1 l1 s2 l2,
    returns (run mock_respond (poll_body conversation1 user1) None
               (mock [] [] [] false, []))
            (s1, (l1, inr tt)) /\
    returns (run mock_respond (poll_body conversation1 user1) l1 s1) (s2, (l2, inr tt)) /\
    fetched (snd s2) = [inr []; inr []] /\
    length (created (snd s2)) = 0 /\
    length (created (snd s2)) <> 1.
Proof.
  do 4 eexists. split; [|split; [|split; [|split]]].
  - apply (eval_returns 30). vm_compute. reflexivity.
  - apply (eval_returns 30). vm_compute. reflexivity.
  - reflexivity.
  - reflexivity.
  - discriminate.
Qed.

Lemma same_list_twice_witness :
  exists s1 l1 s2 l2,
    returns (run mock_respond (poll_body conversation1 user1) None
               (mock [] [] [hi] false, []))
            (s1, (l1, inr tt)) /\
    returns (run mock_respond (poll_body conversation1 user1) l1 s1) (s2, (l2, inr tt)) /\
    fetched (snd s2) = [inr [hi]; inr [hi]] /\
    length (created (snd s2)) <= 1 /\
    (length (created (snd s2)) = 1 <->
     exists init last_msg,
       [hi] = init ++ [last_msg] /\
       Some (sid last_msg) <> None /\
       author last_msg = user1).
Proof.
  eassert (h1 : returns (run mock_respond (poll_body conversation1 user1) None
                           (mock [] [] [hi] false, []))
                        (_, (_, inr tt)))
    by (apply (eval_returns 30); vm_compute; reflexivity).
  match type of h1 with
  | returns _ (?s1, (?l1, _)) =>
      eassert (h2 : returns (run mock_respond (poll_body conversation1 user1) l1 s1)
                            (_, (_, inr tt)))
        by (apply (eval_returns 30); vm_compute; reflexivity)
  end.
  do 4 eexists.
  split; [exact h1|]. split; [exact h2|]. split; [reflexivity|].
  apply (same_list_twice Mock mock_respond conversation1 user1 None
           _ _ _ _ _ _ h1 h2).
  reflexivity.
Defined.

Lemma last_sid_invariant_witness :
  exists last_sid s,
    reachable mock_respond conversation1
      (format_number (lit "+5511999"%string))
      (mock [] [] [hi] false, []) last_sid s /\
    last_sid = Some (sid hi) /\
    (last_sid = None \/
     answered conversation1 (format_number (lit "+5511999"%string)) (snd s) last_sid).
Proof.
  eassert (h : reachable mock_respond conversation1
                 (format_number (lit "+5511999"%string))
                 (mock [] [] [hi] false, []) _ _).
  { eapply reach_tick; [apply reach_start|].
    apply (eval_returns 30). vm_compute. reflexivity. }
  do 2 eexists. split; [exact h|]. split; [reflexivity|].
  apply (last_sid_invariant Mock mock_respond conversation1
           (lit "+5511999"%string) _ _ _ h).
Defined.

(** ** Two inputs the source does not provide for *)

(** C1.  A pass on a newest message whose body cannot be printed.  The
    list is not empty, the newest message is of the user and its [sid]
    differs from [last_sid]; its body holds a lone surrogate, so
    [print("from phone:", last_msg.body)] raises before [messages.create]
    and the pass ends with [UnicodeEncodeError] after the listing: no reply
    is created and [last_sid] is not set. *)
Theorem garbled_body_no_reply :
  [hi; garbled] = [hi] ++ [garbled] /\
  Some (sid garbled) <> None /\
  author garbled = user1 /\
  returns
    (run mock_respond (poll_body conversation1 user1) None
       (mock [] [] [hi; garbled] false, []))
    ((mock [] [] [hi; garbled] false,
      [Entry (MessagesList conversation1) (inr [hi; garbled])]),
     (None, inl UnicodeEncodeError)) /\
  created [Entry (MessagesList conversation1) (inr [hi; garbled])] = [].
Proof.
  split; [reflexivity|]. split; [discriminate|]. split; [reflexivity|].
  split; [|reflexivity].
  apply (eval_returns 30). vm_compute. reflexivity.
Qed.

(** C4.  [ensure_participant] on a conversation that holds a chat
    participant.  No listed participant is bound to the address; the first
    one joined by a chat identity and has no binding, so the subscript
    [p.messaging_binding['address']] raises and [ensure_participant] ends
    with [TypeError] after the listing: no [participants.create] call is
    made. *)
Theorem chat_participant_no_create :
  (forall p, In p [chat_participant; bound_to twilio1 twilio1] ->
     bound_address p <> inr (Some user1)) /\
  returns
    (run mock_respond (ensure_participant conversation1 user1 twilio1) tt
       (mock [conversation1] [chat_participant; bound_to twilio1 twilio1] [] false,
        []))
    ((mock [conversation1] [chat_participant; bound_to twilio1 twilio1] [] false,
      [Entry (ParticipantsList conversation1)
             (inr [chat_participant; bound_to twilio1 twilio1])]),
     (tt, inl TypeError)) /\
  participants_created
    [Entry (ParticipantsList conversation1)
           (inr [chat_participant; bound_to twilio1 twilio1])] = [].
Proof.
  split; [|split; [|reflexivity]].
  - intros p [<- | [<- | []]]; discriminate.
  - apply (eval_returns 30). vm_compute. reflexivity.
Qed.

(** ** [main] *)

Section Main.

Variable World : Type.
Variable respond : forall X, twilioE X -> World -> World * X.

(** A phone number that is not set ends [main] before any call. *)
Lemma main_without_number env l s :
  phone_number env = None ->
  returns (run respond (main env) l s) (s, (l, inl AttributeError)).
Proof.
  intros H. unfold main, format_env_number. rewrite H.
  apply run_bind_raise, run_raise.
Qed.


End Main.

(** The scenario of the specification: a conversation that holds the
    label is found, and nothing is created. *)
Example found_not_created :
  eval_fuel 10 (run mock_respond (get_or_create_conversation None) tt
                  (mock [conversation1] [] [] false, []))
  = Some ((mock [conversation1] [] [] false,
           [Entry (ConversationsList None) (inr [conversation1])]),
          (tt, inr conversation1)).
Proof. vm_compute. reflexivity. Qed.

(** No conversation holds the label: one is created. *)
Example absent_created :
  conversations_created
    (snd (fst (match eval_fuel 10
                       (run mock_respond (get_or_create_conversation None) tt
                          (mock [conversation0] [] [] false, []))
               with
               | Some out => out
               | None => ((mock [] [] [] false, []), (tt, inl AttributeError))
               end)))
  = [(Friendly_Conversation,
      inr {| conversation_sid := lit "CH9"%string;
             friendly_name := Friendly_Conversation |})].
Proof. vm_compute. reflexivity. Qed.

(** A participant that is not bound yet is created, with the proxy. *)
Example participant_created_once :
  participants_created
    (snd (fst (match eval_fuel 10
                       (run mock_respond (ensure_participant conversation1 user1 twilio1) tt
                          (mock [conversation1] [] [] false, []))
               with
               | Some out => out
               | None => ((mock [] [] [] false, []), (tt, inl AttributeError))
               end)))
  = [(conversation1, user1, twilio1)].
Proof. vm_compute. reflexivity. Qed.

(* ===================================================================== *)
(** * Part 5: further facts about normalization                           *)
(* ===================================================================== *)

Section Padding.

Implicit Types s t x ws : str.

(** No character of the channel prefix is a space. *)
Lemma whatsapp_no_space c : In c whatsapp -> isspace c = false.
Proof.
  simpl. intros H.
  repeat (destruct H as [<- | H]; [reflexivity|]). destruct H.
Qed.

Lemma startswith_space c s :
  isspace c = true -> startswith whatsapp (c :: s) = false.
Proof.
  intros H.
  change (startswith whatsapp (c :: s))
    with (N.eqb 119 c && startswith (tl whatsapp) s).
  destruct (N.eqb_spec 119 c) as [<-|_]; [discriminate | reflexivity].
Qed.

Lemma lstrip_space_app ws s :
  forallb isspace ws = true -> lstrip (ws ++ s) = lstrip s.
Proof.
  induction ws as [|c ws IH]; simpl; [reflexivity|].
  intros H. apply andb_true_iff in H as [Hc Hws].
  rewrite Hc. apply IH, Hws.
Qed.

Lemma lstrip_space ws : forallb isspace ws = true -> lstrip ws = [].
Proof.
  intros H. rewrite <- (app_nil_r ws), (lstrip_space_app ws [] H). reflexivity.
Qed.

Lemma lstrip_app s t :
  lstrip (s ++ t) = match lstrip s with [] => lstrip t | _ :: _ => lstrip s ++ t end.
Proof.
  induction s as [|c s IH]; simpl.
  - destruct (lstrip t); reflexivity.
  - destruct (isspace c); [exact IH | reflexivity].
Qed.

Lemma forallb_rev {A} (f : A -> bool) l :
  forallb f l = true -> forallb f (rev l) = true.
Proof.
  rewrite !forallb_forall. intros H x Hx. apply H, in_rev, Hx.
Qed.

Lemma rstrip_app_space s ws :
  forallb isspace ws = true -> rstrip (s ++ ws) = rstrip s.
Proof.
  intros H. unfold rstrip. rewrite rev_app_distr.
  rewrite (lstrip_space_app (rev ws) (rev s) (forallb_rev _ _ H)). reflexivity.
Qed.

Lemma strip_padding ws1 s ws2 :
  forallb isspace ws1 = true -> forallb isspace ws2 = true ->
  strip (ws1 ++ s ++ ws2) = strip s.
Proof.
  intros H1 H2. unfold strip.
  rewrite (lstrip_space_app ws1 _ H1), lstrip_app.
  destruct (lstrip s) as [|c r] eqn:E.
  - rewrite (lstrip_space ws2 H2). reflexivity.
  - apply rstrip_app_space, H2.
Qed.

Lemma contains_space ws :
  forallb isspace ws = true -> contains whatsapp ws = false.
Proof.
  induction ws as [|c ws IH]; [reflexivity|].
  intros H. apply andb_true_iff in H as [Hc Hws].
  change (contains whatsapp (c :: ws))
    with (startswith whatsapp (c :: ws) || contains whatsapp ws).
  rewrite (startswith_space c ws Hc), (IH Hws). reflexivity.
Qed.

Lemma replace_space_app ws x :
  forallb isspace ws = true ->
  replace whatsapp [] (ws ++ x) = ws ++ replace whatsapp [] x.
Proof.
  induction ws as [|c ws IH]; [reflexivity|].
  intros H. apply andb_true_iff in H as [Hc Hws].
  change ((c :: ws) ++ x) with (c :: (ws ++ x)).
  rewrite (replace_whatsapp_skip [] c _ (startswith_space c _ Hc)).
  rewrite (IH Hws). reflexivity.
Qed.

(** A match cannot run on into trailing spaces. *)
Lemma startswith_app_space a ws :
  forallb isspace ws = true ->
  startswith whatsapp (a ++ ws) = startswith whatsapp a.
Proof.
  intros H. destruct (startswith whatsapp a) eqn:E.
  - apply startswith_weaken, E.
  - destruct (startswith whatsapp (a ++ ws)) eqn:F; [|reflexivity].
    apply startswith_straddle in F as [F | [p2 [Hp F]]]; [congruence|].
    destruct p2 as [|y p2].
    + rewrite app_nil_r in Hp. subst a.
      rewrite <- (app_nil_r whatsapp) in E at 2.
      rewrite startswith_app in E. discriminate.
    + destruct ws as [|c ws]; [discriminate|].
      simpl in F, H. apply andb_true_iff in F as [Fy _].
      apply N.eqb_eq in Fy. subst c.
      apply andb_true_iff in H as [Hy _].
      assert (Hin : In y whatsapp)
        by (rewrite Hp; apply in_or_app; right; left; reflexivity).
      rewrite (whatsapp_no_space y Hin) in Hy. discriminate.
Qed.

Lemma replace_app_space x ws :
  forallb isspace ws = true ->
  replace whatsapp [] (x ++ ws) = replace whatsapp [] x ++ ws.
Proof.
  intros H. remember (length x) as n eqn:En. revert x En.
  induction n as [n IH] using lt_wf_ind. intros x En.
  destruct x as [|c x].
  - apply replace_absent, contains_space, H.
  - destruct (startswith whatsapp (c :: x)) eqn:E.
    + pose proof (startswith_split _ _ E) as Hs.
      remember (skipn (length whatsapp) (c :: x)) as rest eqn:Er. clear Er.
      rewrite Hs in En. rewrite Hs, <- app_assoc, !replace_whatsapp. simpl.
      apply (IH (length rest)); [|reflexivity].
      subst n. rewrite length_app. simpl. lia.
    + change ((c :: x) ++ ws) with (c :: (x ++ ws)).
      rewrite (replace_whatsapp_skip [] c x E).
      rewrite (replace_whatsapp_skip [] c (x ++ ws)).
      * simpl. f_equal. apply (IH (length x)); [subst n; simpl; lia | reflexivity].
      * change (c :: x ++ ws) with ((c :: x) ++ ws).
        rewrite (startswith_app_space _ ws H). exact E.
Qed.

(** Spaces around the input, whatever it is, change nothing. *)
Theorem format_number_padding ws1 x ws2 :
  forallb isspace ws1 = true -> forallb isspace ws2 = true ->
  format_number (ws1 ++ x ++ ws2) = format_number x.
Proof.
  intros H1 H2. unfold format_number.
  rewrite (replace_space_app ws1 _ H1), (replace_app_space x ws2 H2).
  rewrite (strip_padding ws1 _ ws2 H1 H2). reflexivity.
Qed.

Lemma format_number_padding_witness :
  forallb isspace (lit "  "%string) = true /\
  forallb isspace [9%N; 160%N; 10%N] = true /\
  format_number (lit "  "%string ++ lit "whatsapp:+55 11"%string ++ [9%N; 160%N; 10%N])
  = format_number (lit "whatsapp:+55 11"%string).
Proof.
  split; [reflexivity|]. split; [reflexivity|].
  apply (format_number_padding (lit "  "%string) (lit "whatsapp:+55 11"%string)
           [9%N; 160%N; 10%N]); reflexivity.
Defined.

(** An input of spaces only, the empty string among them, gives the bare
    prefix. *)
Theorem format_number_blank ws :
  forallb isspace ws = true -> format_number ws = whatsapp.
Proof.
  intros H. unfold format_number.
  rewrite (replace_absent whatsapp [] ws (contains_space ws H)).
  unfold strip. rewrite (lstrip_space ws H). reflexivity.
Qed.

Lemma format_number_blank_witness :
  forallb isspace (lit "   "%string) = true /\
  format_number (lit "   "%string) = whatsapp.
Proof.
  split; [reflexivity|].
  apply (format_number_blank (lit "   "%string)). reflexivity.
Defined.

(** Behind the prefix the output neither begins nor ends with a space. *)
Theorem format_number_trimmed x :
  exists r,
    format_number x = whatsapp ++ r /\ clean_head r /\ clean_head (rev r).
Proof.
  exists (strip (replace whatsapp [] x)). split; [reflexivity|]. split.
  - apply rstrip_clean_head, lstrip_clean_head.
  - unfold strip, rstrip. rewrite rev_involutive. apply lstrip_clean_head.
Qed.

End Padding.

Section Idempotence.

Implicit Types s t x : str.

Lemma lstrip_suffix_space s :
  exists t, s = t ++ lstrip s /\ forallb isspace t = true.
Proof.
  induction s as [|c s [t [IH Ht]]]; [exists []; split; reflexivity|].
  simpl. destruct (isspace c) eqn:E.
  - exists (c :: t). simpl. rewrite E, Ht. split; [f_equal; exact IH | reflexivity].
  - exists []. split; reflexivity.
Qed.

Lemma rstrip_prefix_space s :
  exists t, s = rstrip s ++ t /\ forallb isspace t = true.
Proof.
  unfold rstrip. destruct (lstrip_suffix_space (rev s)) as [t [H Ht]].
  exists (rev t). split; [|apply forallb_rev, Ht].
  rewrite <- rev_app_distr, <- H, rev_involutive. reflexivity.
Qed.

Lemma contains_drop_space ws s :
  forallb isspace ws = true ->
  contains whatsapp (ws ++ s) = contains whatsapp s.
Proof.
  induction ws as [|c ws IH]; [reflexivity|].
  intros H. apply andb_true_iff in H as [Hc Hws].
  change (contains whatsapp ((c :: ws) ++ s))
    with (startswith whatsapp (c :: ws ++ s) || contains whatsapp (ws ++ s)).
  rewrite (startswith_space c _ Hc). apply IH, Hws.
Qed.

Lemma contains_app_space s ws :
  forallb isspace ws = true ->
  contains whatsapp (s ++ ws) = contains whatsapp s.
Proof.
  intros H. induction s as [|c s IH].
  - apply contains_space, H.
  - change (contains whatsapp ((c :: s) ++ ws))
      with (startswith whatsapp ((c :: s) ++ ws) || contains whatsapp (s ++ ws)).
    rewrite (startswith_app_space (c :: s) ws H), IH. reflexivity.
Qed.

(** Trimming neither removes nor makes an occurrence of the prefix. *)
Lemma contains_strip_eq s : contains whatsapp (strip s) = contains whatsapp s.
Proof.
  unfold strip.
  destruct (lstrip_suffix_space s) as [t [Hs Ht]].
  destruct (rstrip_prefix_space (lstrip s)) as [u [Hl Hu]].
  rewrite Hs at 2. rewrite (contains_drop_space t _ Ht).
  rewrite Hl at 2. rewrite (contains_app_space _ u Hu). reflexivity.
Qed.

Lemma lstrip_length s : length (lstrip s) <= length s.
Proof.
  induction s as [|c s IH]; simpl; [lia|].
  destruct (isspace c); simpl; lia.
Qed.

Lemma strip_length s : length (strip s) <= length s.
Proof.
  unfold strip, rstrip. rewrite length_rev.
  pose proof (lstrip_length (rev (lstrip s))) as H1.
  pose proof (lstrip_length s) as H2.
  rewrite length_rev in H1. lia.
Qed.

(** Deleting shortens, strictly when there is an occurrence. *)
Lemma replace_shrinks s :
  length (replace whatsapp [] s) <= length s /\
  (contains whatsapp s = true -> length (replace whatsapp [] s) < length s).
Proof.
  remember (length s) as n eqn:En. revert s En.
  induction n as [n IH] using lt_wf_ind. intros s En.
  destruct s as [|c s].
  - split; [simpl in *; subst; unfold whatsapp; simp replace; simpl; lia | discriminate].
  - destruct (startswith whatsapp (c :: s)) eqn:E.
    + pose proof (startswith_split _ _ E) as Hs.
      remember (skipn (length whatsapp) (c :: s)) as rest eqn:Er. clear Er.
      rewrite Hs in En. rewrite Hs, replace_whatsapp.
      rewrite length_app in En. simpl in En.
      destruct (IH (length rest) ltac:(lia) rest eq_refl) as [Hle _].
      simpl. split; [lia | intros _; lia].
    + rewrite (replace_whatsapp_skip [] c s E).
      destruct (IH (length s) ltac:(subst n; simpl; lia) s eq_refl) as [Hle Hlt].
      simpl in *. subst n. split; [lia|].
      rewrite E. simpl. intros H. specialize (Hlt H). lia.
Qed.

(** Normalizing twice gives what normalizing once gives exactly when the
    single pass of [replace] leaves no occurrence of the prefix behind. *)
Theorem format_number_idempotent_iff x :
  format_number (format_number x) = format_number x <->
  contains whatsapp (replace whatsapp [] x) = false.
Proof.
  unfold format_number at 2 3.
  remember (replace whatsapp [] x) as s eqn:Es. clear Es x.
  unfold format_number. rewrite replace_whatsapp. cbn [app].
  split.
  - intros H. apply app_inv_head in H.
    destruct (contains whatsapp s) eqn:E; [|reflexivity].
    exfalso. rewrite <- contains_strip_eq in E.
    destruct (replace_shrinks (strip s)) as [_ Hlt]. specialize (Hlt E).
    pose proof (strip_length (replace whatsapp [] (strip s))) as Hle.
    rewrite H in Hle. lia.
  - intros H. rewrite <- contains_strip_eq in H.
    rewrite (replace_absent whatsapp [] (strip s) H), strip_idem. reflexivity.
Qed.

End Idempotence.

(* ===================================================================== *)
(** * Part 6: further facts about provisioning                            *)
(* ===================================================================== *)

Section ProvisionBounds.

Variable World : Type.
Variable respond : forall X, twilioE X -> World -> World * X.
Variable L : Type.

(** Whatever the provider answers, [get_or_create_conversation] ends after
    the listing and at most one [conversations.create]; that call carries
    the label and its answer is the result; a conversation returned without
    it carries the label. *)
Theorem get_or_create_conversation_bounded service (l : L) w tr :
  exists w' listed_answer rest r,
    returns (run respond (get_or_create_conversation service) l (w, tr))
            ((w', tr ++ Entry (ConversationsList service) listed_answer :: rest),
             (l, r)) /\
    (rest = [] \/
     rest = [Entry (ConversationsCreate service Friendly_Conversation) r]) /\
    (rest = [] -> forall c, r = inr c -> friendly_name c = Friendly_Conversation).
Proof.
  destruct (respond _ (ConversationsList service) w) as [w1 [e|listed]] eqn:Hl.
  - exists w1, (inl e), [], (inl e). split; [|repeat split; auto; discriminate].
    unfold get_or_create_conversation.
    eapply run_bind_raise. apply run_call, Hl.
  - pose proof (run_get_or_create World respond L service l w tr w1 _ Hl) as H.
    destruct (find (fun c => str_eqb (friendly_name c) Friendly_Conversation) listed)
      as [c|] eqn:Hf.
    + exists w1, (inr listed), [], (inr c). split; [exact H|]. repeat split; auto.
      intros _ c' Hc. inversion Hc. subst c'.
      apply find_some in Hf as [_ Hf]. apply str_eqb_eq, Hf.
    + destruct (respond _ (ConversationsCreate service Friendly_Conversation) w1)
        as [w2 r] eqn:Hc.
      exists w2, (inr listed),
        [Entry (ConversationsCreate service Friendly_Conversation) r], r.
      split; [exact H|]. repeat split; auto; discriminate.
Qed.

(** A listing of the conversations that raises ends
    [get_or_create_conversation] with that exception; nothing is created. *)
Theorem get_or_create_conversation_listing_raises service (l : L) w tr w1 e :
  respond _ (ConversationsList service) w = (w1, inl e) ->
  returns (run respond (get_or_create_conversation service) l (w, tr))
          ((w1, tr ++ [Entry (ConversationsList service) (inl e)]), (l, inl e)).
Proof.
  intros Hl. unfold get_or_create_conversation.
  eapply run_bind_raise. apply run_call, Hl.
Qed.

(** Whatever the provider answers, [ensure_participant] ends after the
    listing and at most one [participants.create], which binds
    [phone_number] with [proxy_number] in the conversation given.  It ends
    normally, or with the exception of one of the two calls, or, before any
    [participants.create], with the [TypeError] or [KeyError] of a binding
    that cannot be read or the [UnicodeEncodeError] of a number that cannot
    be printed. *)
Theorem ensure_participant_bounded conversation phone_number proxy_number
    (l : L) w tr :
  exists w' listed_answer rest r,
    returns (run respond (ensure_participant conversation phone_number proxy_number)
               l (w, tr))
            ((w', tr ++ Entry (ParticipantsList conversation) listed_answer :: rest),
             (l, r)) /\
    (rest = [] \/
     exists answer,
       rest = [Entry (ParticipantsCreate conversation phone_number proxy_number)
                     answer]) /\
    (r = inr tt \/
     exists e,
       r = inl e /\
       (listed_answer = inl e \/
        rest = [Entry (ParticipantsCreate conversation phone_number proxy_number)
                      (inl e)] \/
        (rest = [] /\
         (e = TypeError \/ e = KeyError address_key \/ e = UnicodeEncodeError)))).
Proof.
  destruct (respond _ (ParticipantsList conversation) w) as [w1 [e|listed]] eqn:Hl.
  - exists w1, (inl e), [], (inl e). split; [|split; [auto | right; eauto]].
    unfold ensure_participant. eapply run_bind_raise. apply run_call, Hl.
  - pose proof (run_ensure World respond L conversation phone_number proxy_number
                  l w tr w1 _ Hl) as H.
    destruct (any_address_is phone_number listed) as [e|[|]] eqn:Ha.
    + exists w1, (inr listed), [], (inl e). split; [exact H|].
      split; [auto|]. right. exists e. split; [reflexivity|]. right. right.
      split; [reflexivity|].
      destruct (any_exception _ _ _ Ha) as [-> | ->]; auto.
    + exists w1, (inr listed), [], (inr tt). split; [exact H | auto].
    + destruct (encodable phone_number && encodable proxy_number).
      * destruct (respond _ (ParticipantsCreate conversation phone_number
                                                proxy_number) w1)
          as [w2 [e|p]] eqn:Hc; simpl in H.
        -- exists w2, (inr listed),
             [Entry (ParticipantsCreate conversation phone_number proxy_number)
                    (inl e)], (inl e).
           split; [exact H|]. split; [right; eauto | right; eauto].
        -- exists w2, (inr listed),
             [Entry (ParticipantsCreate conversation phone_number proxy_number)
                    (inr p)], (inr tt).
           split; [exact H|]. split; [right; eauto | auto].
      * exists w1, (inr listed), [], (inl UnicodeEncodeError).
        split; [exact H|]. split; [auto|]. right. eauto 8.
Qed.

(** A participant whose binding cannot be read, met before any participant
    bound to [phone_number], ends [ensure_participant] with the exception of
    the subscript after the listing: nobody is added, whoever is listed
    behind it. *)
Theorem ensure_participant_unreadable conversation phone_number proxy_number
    (l : L) w tr w1 before p after e :
  respond _ (ParticipantsList conversation) w
  = (w1, inr (before ++ p :: after)) ->
  Forall (other_address phone_number) before ->
  bound_address p = inl e ->
  returns (run respond (ensure_participant conversation phone_number proxy_number)
             l (w, tr))
          ((w1, tr ++ [Entry (ParticipantsList conversation)
                             (inr (before ++ p :: after))]),
           (l, inl e)).
Proof.
  intros Hl Hb Hp.
  pose proof (run_ensure World respond L conversation phone_number proxy_number
                l w tr w1 _ Hl) as H.
  rewrite (any_raises _ _ _ _ _ Hb Hp) in H. exact H.
Qed.

(** When nobody listed is bound to [phone_number] and one of the two numbers
    cannot be printed, [ensure_participant] ends with [UnicodeEncodeError]
    after the listing: the [print] before [participants.create] raises and
    nobody is added. *)
Theorem ensure_participant_unprintable conversation phone_number proxy_number
    (l : L) w tr w1 listed :
  respond _ (ParticipantsList conversation) w = (w1, inr listed) ->
  Forall (other_address phone_number) listed ->
  encodable phone_number && encodable proxy_number = false ->
  returns (run respond (ensure_participant conversation phone_number proxy_number)
             l (w, tr))
          ((w1, tr ++ [Entry (ParticipantsList conversation) (inr listed)]),
           (l, inl UnicodeEncodeError)).
Proof.
  intros Hl Hn He.
  pose proof (run_ensure World respond L conversation phone_number proxy_number
                l w tr w1 _ Hl) as H.
  rewrite (any_absent _ _ Hn), He in H. exact H.
Qed.

(** A listing of the participants that raises ends [ensure_participant]
    with that exception; nobody is added. *)
Theorem ensure_participant_listing_raises conversation phone_number proxy_number
    (l : L) w tr w1 e :
  respond _ (ParticipantsList conversation) w = (w1, inl e) ->
  returns (run respond (ensure_participant conversation phone_number proxy_number)
             l (w, tr))
          ((w1, tr ++ [Entry (ParticipantsList conversation) (inl e)]), (l, inl e)).
Proof.
  intros Hl. unfold ensure_participant.
  eapply run_bind_raise. apply run_call, Hl.
Qed.

End ProvisionBounds.

Lemma get_or_create_conversation_listing_raises_witness :
  refuse _ (ConversationsList None) tt = (tt, inl (TwilioRestException 503)) /\
  returns (run refuse (get_or_create_conversation None) tt (tt, []))
          ((tt, [Entry (ConversationsList None) (inl (TwilioRestException 503))]),
           (tt, inl (TwilioRestException 503))).
Proof.
  split; [reflexivity|].
  apply (get_or_create_conversation_listing_raises unit refuse unit None tt tt []
           tt (TwilioRestException 503)).
  reflexivity.
Defined.

Lemma ensure_participant_listing_raises_witness :
  refuse _ (ParticipantsList conversation1) tt = (tt, inl (TwilioRestException 503)) /\
  returns (run refuse (ensure_participant conversation1 user1 twilio1) tt (tt, []))
          ((tt, [Entry (ParticipantsList conversation1)
                       (inl (TwilioRestException 503))]),
           (tt, inl (TwilioRestException 503))).
Proof.
  split; [reflexivity|].
  apply (ensure_participant_listing_raises unit refuse unit conversation1 user1
           twilio1 tt tt [] tt (TwilioRestException 503)).
  reflexivity.
Defined.

(* ===================================================================== *)
(** * Part 7: further facts about the poll loop                           *)
(* ===================================================================== *)

Section LoopFacts.

Variable World : Type.
Variable respond : forall X, twilioE X -> World -> World * X.
Variable conversation : Conversation.
Variable user_number : str.

(** A pass that ends normally was quiet or replied. *)
Lemma pass_inv l w tr s' l' :
  returns (run respond (poll_body conversation user_number) l (w, tr))
          (s', (l', inr tt)) ->
  (exists w2 messages,
     s' = (w2, tr ++ [Entry (MessagesList conversation) (inr messages);
                      Entry (Sleep 1) tt]) /\
     reacting user_number l messages = None /\ l' = l) \/
  (exists w3 messages last_msg m,
     s' = (w3, tr ++ [Entry (MessagesList conversation) (inr messages);
                      Entry (MessagesCreate conversation system reply) (inr m);
                      Entry (Sleep 1) tt]) /\
     reacting user_number l messages = Some last_msg /\
     l' = Some (sid last_msg)).
Proof.
  intros H. apply tick_complete in H.
  inversion H as
    [ | w1 ms w2 Hl Hg Hs | | | w1 ms m w2 m' w3 Hl Hg Hb Hc Hs]; subst.
  - left. eauto.
  - right. exists w3, ms, m, m'. auto.
Qed.

Lemma reachable_passes s0 l s :
  reachable respond conversation user_number s0 l s <->
  passes respond conversation user_number None s0 l s.
Proof.
  split; induction 1; econstructor; eassumption.
Qed.

(** A listing of the messages that raises ends the pass and the loop with
    that exception: no reply, no sleep, [last_sid] as it was. *)
Theorem listing_raises_ends_loop last_sid w tr w1 e :
  respond _ (MessagesList conversation) w = (w1, inl e) ->
  returns (run respond (while_true (poll_body conversation user_number))
             last_sid (w, tr))
          ((w1, tr ++ [Entry (MessagesList conversation) (inl e)]),
           (last_sid, inl e)).
Proof.
  intros Hl. apply while_true_raises, tick_sound.
  apply tick_list_raises, Hl.
Qed.

(** The pass looks at the newest message only.  When the list is empty, or
    its last element is not of [user_number], or the [sid] of its last
    element is [last_sid], the pass lists, sleeps and leaves [last_sid] as
    it was, whatever the list holds before its last element. *)
Theorem poll_body_quiet last_sid w tr w1 messages :
  respond _ (MessagesList conversation) w = (w1, inr messages) ->
  messages = [] \/
  (exists init last_msg,
     messages = init ++ [last_msg] /\
     (author last_msg <> user_number \/ last_sid = Some (sid last_msg))) ->
  returns (run respond (poll_body conversation user_number) last_sid (w, tr))
          ((fst (respond _ (Sleep 1) w1),
            tr ++ [Entry (MessagesList conversation) (inr messages);
                   Entry (Sleep 1) tt]),
           (last_sid, inr tt)).
Proof.
  intros Hl Hq. apply tick_sound.
  eapply tick_quiet;
    [exact Hl | | destruct (respond _ (Sleep 1) w1) as [w2 []]; reflexivity].
  destruct (reacting user_number last_sid messages) as [m|] eqn:G; [|reflexivity].
  exfalso. apply reacting_spec in G as [[init E] [Hs Ha]].
  destruct Hq as [-> | [init' [x [E' Hx]]]].
  - destruct init; discriminate.
  - rewrite E in E'. apply app_inj_tail in E' as [_ <-].
    destruct Hx as [Hx | Hx]; congruence.
Qed.

(** Over any number of passes the loop calls nothing but [messages.list]
    and [messages.create] of its conversation, the latter with author
    ["system"] and the fixed body, and [time.sleep(1)]. *)
Theorem loop_calls_only last_sid0 s0 last_sid s :
  passes respond conversation user_number last_sid0 s0 last_sid s ->
  exists new, snd s = snd s0 ++ new /\ Forall (loop_call conversation) new.
Proof.
  induction 1 as [|l s l' s' _ [new [E IH]] Hstep].
  - exists []. rewrite app_nil_r. split; [reflexivity | constructor].
  - destruct s as [w tr]. simpl in E. subst tr.
    apply pass_inv in Hstep as
      [[w2 [ms [-> _]]] | [w3 [ms [m [m' [-> _]]]]]]; simpl;
      rewrite <- app_assoc; eexists; (split; [reflexivity|]);
      apply Forall_app; (split; [exact IH|]);
      repeat (apply Forall_cons; [unfold loop_call; eauto 6|]);
      apply Forall_nil.
Qed.

(** Over any number of passes there are at most as many replies as
    listings: a pass replies once at most. *)
Theorem replies_at_most_listings last_sid0 s0 last_sid s :
  passes respond conversation user_number last_sid0 s0 last_sid s ->
  exists new,
    snd s = snd s0 ++ new /\ length (created new) <= length (fetched new).
Proof.
  induction 1 as [|l s l' s' _ [new [E IH]] Hstep].
  - exists []. rewrite app_nil_r. split; [reflexivity | simpl; lia].
  - destruct s as [w tr]. simpl in E. subst tr.
    apply pass_inv in Hstep as
      [[w2 [ms [-> _]]] | [w3 [ms [m [m' [-> _]]]]]]; simpl;
      rewrite <- app_assoc; eexists; (split; [reflexivity|]);
      unfold created, fetched in *; rewrite !collect_app, !length_app;
      simpl; lia.
Qed.

Lemma no_reply_step x last_sid0 s0 last_sid s :
  passes respond conversation user_number last_sid0 s0 last_sid s ->
  last_sid0 = Some x ->
  exists new,
    snd s = snd s0 ++ new /\
    (Forall (newest_is x) (fetched new) -> last_sid = Some x /\ created new = []).
Proof.
  intros H Hx. induction H as [|l s l' s' _ [new [E IH]] Hstep].
  - exists []. rewrite app_nil_r. split; [reflexivity | auto].
  - destruct s as [w tr]. simpl in E. subst tr.
    apply pass_inv in Hstep as
      [[w2 [ms [-> [Hg ->]]]] | [w3 [ms [m [m' [-> [Hg ->]]]]]]]; simpl;
      rewrite <- app_assoc; eexists; (split; [reflexivity|]);
      unfold created, fetched in *; rewrite !collect_app; simpl;
      intros HF; apply Forall_app in HF as [HF1 HF2];
      destruct (IH HF1) as [-> Hc].
    + rewrite Hc. auto.
    + exfalso. apply Forall_inv in HF2 as [init [y [Ey Hy]]].
      apply reacting_spec in Hg as [[init' E'] [Hne _]].
      inversion Ey. subst ms. apply app_inj_tail in H0 as [_ <-].
      congruence.
Qed.

(** From [last_sid = x], however many passes follow: as long as every
    fetched list ends with the message of [sid] [x], no reply is created and
    [last_sid] stays. *)
Theorem no_reply_while_newest_stays x s0 last_sid s new :
  passes respond conversation user_number (Some x) s0 last_sid s ->
  snd s = snd s0 ++ new ->
  Forall (newest_is x) (fetched new) ->
  last_sid = Some x /\ created new = [].
Proof.
  intros H E HF.
  destruct (no_reply_step x _ _ _ _ H eq_refl) as [new' [E' Hn]].
  rewrite E in E'. apply app_inv_head in E'. subst new'. apply Hn, HF.
Qed.


End LoopFacts.

(* ===================================================================== *)
(** * Part 8: further facts about [main] and [app.py]                     *)
(* ===================================================================== *)

Section Frames.

Context {L A B C : Type}.

Lemma bind_ret_py (a : A) (k : A -> py L B) l :
  eq_itree eq (bind (ret a) k l) (k a l).
Proof. unfold bind, ret. rewrite bind_ret_l. reflexivity. Qed.

Lemma bind_raise_py (e : exn) (k : A -> py L B) l :
  eq_itree eq (bind (raise e) k l) (raise e l).
Proof. unfold bind, raise. rewrite bind_ret_l. reflexivity. Qed.

Lemma bind_bind_py (m : py L A) (k : A -> py L B) (h : B -> py L C) l :
  eq_itree eq (bind (bind m k) h l) (bind m (fun a => bind (k a) h) l).
Proof.
  unfold bind. rewrite bind_bind.
  eapply eq_itree_clo_bind; [reflexivity|].
  intros [l1 [e|a]] ? <-; [rewrite bind_ret_l|]; reflexivity.
Qed.

Lemma bind_cong_py (m : py L A) (k1 k2 : A -> py L B) l :
  (forall a l', eq_itree eq (k1 a l') (k2 a l')) ->
  eq_itree eq (bind m k1 l) (bind m k2 l).
Proof.
  intros H. unfold bind.
  eapply eq_itree_clo_bind; [reflexivity|].
  intros [l1 [e|a]] ? <-; [reflexivity | apply H].
Qed.

End Frames.

Lemma app_py_main_tree env l : eq_itree eq (app_py env l) (main env l).
Proof.
  unfold app_py, main, clean_env_number, format_env_number.
  destruct (phone_number env) as [number|];
    [|rewrite !bind_raise_py; reflexivity].
  rewrite !bind_ret_py.
  destruct (ms_number env) as [ms|];
    [|rewrite !bind_raise_py; reflexivity].
  rewrite !bind_ret_py.
  unfold send_initial_message. rewrite bind_bind_py.
  apply bind_cong_py. intros message l1. rewrite bind_bind_py.
  apply bind_cong_py. intros [] l2. rewrite bind_bind_py.
  apply bind_cong_py. intros [] l3. rewrite bind_ret_py.
  unfold get_or_create_conversation. rewrite bind_bind_py.
  apply bind_cong_py. intros listed l4. rewrite bind_bind_py.
  apply bind_cong_py. intros conversation l5. rewrite bind_ret_py.
  unfold ensure_participant. rewrite bind_bind_py.
  apply bind_cong_py. intros participants l6. rewrite bind_bind_py.
  apply bind_cong_py. intros already l7.
  apply bind_cong_py. intros [] l8.
  reflexivity.
Qed.

(** The script [app.py] and [main] of [twillioexplanation.py] are the same
    tree: the same calls with the same arguments in the same order, and the
    same exception for a number that is not set.  So they run alike against
    every provider. *)
Theorem app_py_is_main env l :
  eq_itree eq (app_py env l) (main env l) /\
  forall World (respond : forall X, twilioE X -> World -> World * X) s,
    eutt eq (run respond (app_py env) l s) (run respond (main env) l s).
Proof.
  split; [apply app_py_main_tree|].
  intros World respond s. unfold run.
  rewrite (app_py_main_tree env l). reflexivity.
Qed.

Section MainFacts.

Variable World : Type.
Variable respond : forall X, twilioE X -> World -> World * X.

Lemma run_send L from_number to_number (l : L) w tr w1 r :
  respond _ (MessagingCreate initial_body from_number to_number) w = (w1, r) ->
  returns (run respond (send_initial_message from_number to_number) l (w, tr))
          ((w1, tr ++ [Entry (MessagingCreate initial_body from_number to_number) r]),
           (l, match r with
               | inl e => inl e
               | inr m => if encodable (body m) && encodable (sid m)
                          then inr m
                          else inl UnicodeEncodeError
               end)).
Proof.
  intros H. unfold send_initial_message. destruct r as [e|m].
  - eapply run_bind_raise. apply run_call, H.
  - eapply run_bind_ok; [apply run_call, H|].
    destruct (encodable (body m)) eqn:Hb; cbn [andb].
    + eapply run_bind_ok;
        [apply run_print; rewrite print_labelled by reflexivity; exact Hb|].
      destruct (encodable (sid m)) eqn:Hs.
      * eapply run_bind_ok;
          [apply run_print; rewrite print_labelled by reflexivity; exact Hs|].
        apply run_ret.
      * apply run_bind_raise, run_print_raises.
        rewrite print_labelled by reflexivity. exact Hs.
    + apply run_bind_raise, run_print_raises.
      rewrite print_labelled by reflexivity. exact Hb.
Qed.

(** A number that is not set ends [main] with [AttributeError] before any
    call is made. *)
Theorem main_unset_number env l s :
  phone_number env = None \/ ms_number env = None ->
  returns (run respond (main env) l s) (s, (l, inl AttributeError)).
Proof.
  intros H. unfold main, format_env_number.
  destruct (phone_number env) as [number|].
  - destruct H as [H|H]; [discriminate|]. rewrite H.
    eapply run_bind_ok; [apply run_ret|].
    apply run_bind_raise, run_raise.
  - apply run_bind_raise, run_raise.
Qed.

(** When the direct message cannot be sent, [main] ends with the exception
    of that call: no conversation is looked up or created. *)
Theorem main_send_raises env number ms l w tr w1 e :
  phone_number env = Some number ->
  ms_number env = Some ms ->
  respond _ (MessagingCreate initial_body (format_number ms) (format_number number)) w
  = (w1, inl e) ->
  returns (run respond (main env) l (w, tr))
          ((w1, tr ++ [Entry (MessagingCreate initial_body (format_number ms)
                                              (format_number number)) (inl e)]),
           (l, inl e)).
Proof.
  intros Hp Hm Hs. unfold main, format_env_number. rewrite Hp, Hm.
  eapply run_bind_ok; [apply run_ret|].
  eapply run_bind_ok; [apply run_ret|].
  eapply run_bind_raise. apply run_send, Hs.
Qed.



End MainFacts.

(** ** Addresses without the channel prefix *)

Lemma format_number_startswith x : startswith whatsapp (format_number x) = true.
Proof. unfold format_number. apply startswith_app. Qed.

Section Unprefixed.

Variable World : Type.
Variable respond : forall X, twilioE X -> World -> World * X.
Variable conversation : Conversation.
Variable raw : str.

(** A participant whose bound address does not start with the channel
    prefix is never taken for the configured one: when every listed binding
    can be read and no listed address starts with the prefix, and the two
    numbers can be printed, [ensure_participant] creates the participant. *)
Theorem ensure_participant_unprefixed L proxy_number (l : L) w tr w1 listed :
  respond _ (ParticipantsList conversation) w = (w1, inr listed) ->
  (forall p, In p listed ->
     exists v, bound_address p = inr v /\
               forall s, v = Some s -> startswith whatsapp s = false) ->
  encodable (format_number raw) = true ->
  encodable proxy_number = true ->
  exists w2 answer r,
    returns
      (run respond (ensure_participant conversation (format_number raw) proxy_number)
         l (w, tr))
      ((w2, tr ++ [Entry (ParticipantsList conversation) (inr listed);
                   Entry (ParticipantsCreate conversation (format_number raw)
                                             proxy_number) answer]),
       (l, r)).
Proof.
  intros Hl Hn Hen Hep.
  assert (E : Forall (other_address (format_number raw)) listed).
  { apply Forall_forall. intros p Hin.
    destruct (Hn p Hin) as [v [Hv Hs]]. exists v. split; [exact Hv|].
    intros ->. specialize (Hs _ eq_refl).
    rewrite format_number_startswith in Hs. discriminate. }
  pose proof (run_ensure World respond L conversation (format_number raw)
                proxy_number l w tr w1 _ Hl) as H.
  rewrite (any_absent _ _ E), Hen, Hep in H. cbn [andb] in H.
  eauto.
Qed.

(** A newest message whose author does not start with the channel prefix,
    ["system"] or any other, gets no reply: the pass lists, sleeps and
    leaves [last_sid] as it was. *)
Theorem poll_body_ignores_unprefixed last_sid w tr w1 init last_msg :
  respond _ (MessagesList conversation) w = (w1, inr (init ++ [last_msg])) ->
  startswith whatsapp (author last_msg) = false ->
  returns (run respond (poll_body conversation (format_number raw)) last_sid (w, tr))
          ((fst (respond _ (Sleep 1) w1),
            tr ++ [Entry (MessagesList conversation) (inr (init ++ [last_msg]));
                   Entry (Sleep 1) tt]),
           (last_sid, inr tt)).
Proof.
  intros Hl Ha. apply tick_sound.
  eapply tick_quiet;
    [exact Hl | | destruct (respond _ (Sleep 1) w1) as [w2 []]; reflexivity].
  destruct (reacting (format_number raw) last_sid (init ++ [last_msg]))
    as [m|] eqn:G; [|reflexivity].
  apply reacting_spec in G as [[init' E] [_ H2]].
  apply app_inj_tail in E as [_ <-].
  rewrite H2, format_number_startswith in Ha. discriminate.
Qed.

End Unprefixed.

Lemma ensure_participant_unprefixed_witness :
  mock_respond _ (ParticipantsList conversation1)
    (mock [conversation1]
          [bound_to (lit "+5511999"%string) twilio1; {| messaging_binding := Some [(address_key, None)] |}] [] false)
  = (mock [conversation1]
          [bound_to (lit "+5511999"%string) twilio1; {| messaging_binding := Some [(address_key, None)] |}] [] false,
     inr [bound_to (lit "+5511999"%string) twilio1; {| messaging_binding := Some [(address_key, None)] |}]) /\
  encodable (format_number (lit "+5511999"%string)) = true /\
  encodable twilio1 = true /\
  exists w2 answer r,
    returns
      (run mock_respond
         (ensure_participant conversation1 (format_number (lit "+5511999"%string))
            twilio1)
         tt
         (mock [conversation1]
               [bound_to (lit "+5511999"%string) twilio1; {| messaging_binding := Some [(address_key, None)] |}] [] false,
          []))
      ((w2, [] ++ [Entry (ParticipantsList conversation1)
                         (inr [bound_to (lit "+5511999"%string) twilio1;
                               {| messaging_binding := Some [(address_key, None)] |}]);
                   Entry (ParticipantsCreate conversation1
                            (format_number (lit "+5511999"%string)) twilio1)
                         answer]),
       (tt, r)).
Proof.
  split; [reflexivity|]. split; [reflexivity|]. split; [reflexivity|].
  apply (ensure_participant_unprefixed Mock mock_respond conversation1
           (lit "+5511999"%string) unit twilio1 tt
           (mock [conversation1]
                 [bound_to (lit "+5511999"%string) twilio1; {| messaging_binding := Some [(address_key, None)] |}] [] false)
           []
           (mock [conversation1]
                 [bound_to (lit "+5511999"%string) twilio1; {| messaging_binding := Some [(address_key, None)] |}] [] false)
           [bound_to (lit "+5511999"%string) twilio1; {| messaging_binding := Some [(address_key, None)] |}] eq_refl);
    [|reflexivity|reflexivity].
  intros p [<- | [<- | []]].
  - exists (Some (lit "+5511999"%string)). split; [reflexivity|].
    intros s E. inversion E. reflexivity.
  - exists None. split; [reflexivity|]. discriminate.
Defined.

Lemma poll_body_ignores_unprefixed_witness :
  mock_respond _ (MessagesList conversation1)
    (mock [] [] [{| sid := lit "IM7"%string; author := lit "+5511999"%string;
                    body := lit "hi"%string |}] false)
  = (mock [] [] [{| sid := lit "IM7"%string; author := lit "+5511999"%string;
                    body := lit "hi"%string |}] false,
     inr ([] ++ [{| sid := lit "IM7"%string; author := lit "+5511999"%string;
                    body := lit "hi"%string |}])) /\
  startswith whatsapp (lit "+5511999"%string) = false /\
  returns
    (run mock_respond
       (poll_body conversation1 (format_number (lit "+5511999"%string))) None
       (mock [] [] [{| sid := lit "IM7"%string; author := lit "+5511999"%string;
                       body := lit "hi"%string |}] false, []))
    ((mock [] [] [{| sid := lit "IM7"%string; author := lit "+5511999"%string;
                     body := lit "hi"%string |}] false,
      [Entry (MessagesList conversation1)
             (inr [{| sid := lit "IM7"%string; author := lit "+5511999"%string;
                      body := lit "hi"%string |}]);
       Entry (Sleep 1) tt]),
     (None, inr tt)).
Proof.
  split; [reflexivity|]. split; [reflexivity|].
  apply (poll_body_ignores_unprefixed Mock mock_respond conversation1
           (lit "+5511999"%string) None
           (mock [] [] [{| sid := lit "IM7"%string; author := lit "+5511999"%string;
                           body := lit "hi"%string |}] false)
           []
           (mock [] [] [{| sid := lit "IM7"%string; author := lit "+5511999"%string;
                           body := lit "hi"%string |}] false)
           [] {| sid := lit "IM7"%string; author := lit "+5511999"%string;
                 body := lit "hi"%string |}); reflexivity.
Defined.

(** ** The further facts at concrete inputs *)

Lemma listing_raises_ends_loop_witness :
  refuse _ (MessagesList conversation1) tt = (tt, inl (TwilioRestException 503)) /\
  returns (run refuse (while_true (poll_body conversation1 user1))
             (Some (sid hi)) (tt, []))
          ((tt, [Entry (MessagesList conversation1) (inl (TwilioRestException 503))]),
           (Some (sid hi), inl (TwilioRestException 503))).
Proof.
  split; [reflexivity|].
  apply (listing_raises_ends_loop unit refuse conversation1 user1 (Some (sid hi))
           tt [] tt (TwilioRestException 503)).
  reflexivity.
Defined.

Lemma poll_body_quiet_witness :
  mock_respond _ (MessagesList conversation1) (mock [] [] [echo; hi] false)
  = (mock [] [] [echo; hi] false, inr [echo; hi]) /\
  returns (run mock_respond (poll_body conversation1 user1) (Some (sid hi))
             (mock [] [] [echo; hi] false, []))
          ((mock [] [] [echo; hi] false,
            [Entry (MessagesList conversation1) (inr [echo; hi]);
             Entry (Sleep 1) tt]),
           (Some (sid hi), inr tt)).
Proof.
  split; [reflexivity|].
  apply (poll_body_quiet Mock mock_respond conversation1 user1 (Some (sid hi))
           (mock [] [] [echo; hi] false) [] (mock [] [] [echo; hi] false)
           [echo; hi] eq_refl).
  right. exists [echo], hi. split; [reflexivity | right; reflexivity].
Defined.

Lemma loop_calls_only_witness :
  exists last_sid s,
    passes mock_respond conversation1 user1 None (mock [] [] [hi] false, [])
           last_sid s /\
    exists new, snd s = [] ++ new /\ Forall (loop_call conversation1) new.
Proof.
  eassert (h : passes mock_respond conversation1 user1 None
                 (mock [] [] [hi] false, []) _ _).
  { eapply passes_more; [apply passes_none|].
    apply (eval_returns 30). vm_compute. reflexivity. }
  do 2 eexists. split; [exact h|].
  apply (loop_calls_only Mock mock_respond conversation1 user1 _ _ _ _ h).
Defined.

Lemma replies_at_most_listings_witness :
  exists last_sid s,
    passes mock_respond conversation1 user1 None (mock [] [] [hi] false, [])
           last_sid s /\
    exists new, snd s = [] ++ new /\ length (created new) <= length (fetched new).
Proof.
  eassert (h : passes mock_respond conversation1 user1 None
                 (mock [] [] [hi] false, []) _ _).
  { eapply passes_more; [eapply passes_more; [apply passes_none|]|];
      apply (eval_returns 30); vm_compute; reflexivity. }
  do 2 eexists. split; [exact h|].
  apply (replies_at_most_listings Mock mock_respond conversation1 user1 _ _ _ _ h).
Defined.

Lemma no_reply_while_newest_stays_witness :
  exists last_sid s new,
    passes mock_respond conversation1 user1 (Some (sid hi))
           (mock [] [] [echo; hi] false, []) last_sid s /\
    snd s = [] ++ new /\
    Forall (newest_is (sid hi)) (fetched new) /\
    last_sid = Some (sid hi) /\ created new = [].
Proof.
  eassert (h : passes mock_respond conversation1 user1 (Some (sid hi))
                 (mock [] [] [echo; hi] false, []) _ _).
  { eapply passes_more; [eapply passes_more; [apply passes_none|]|];
      apply (eval_returns 30); vm_compute; reflexivity. }
  assert (hf : Forall (newest_is (sid hi))
                 [inr [echo; hi]; inr [echo; hi] : result (list Message)]).
  { repeat constructor; exists [echo], hi; split; reflexivity. }
  do 3 eexists. split; [exact h|]. split; [reflexivity|]. split; [exact hf|].
  apply (no_reply_while_newest_stays Mock mock_respond conversation1 user1
           (sid hi) _ _ _ _ h eq_refl hf).
Defined.



Lemma main_unset_number_witness :
  (phone_number env0 = None \/ ms_number env0 = None) /\
  returns (run refuse (main env0) None (tt, []))
          ((tt, []), (None, inl AttributeError)).
Proof.
  split; [right; reflexivity|].
  apply (main_unset_number unit refuse env0 None (tt, [])).
  right. reflexivity.
Defined.

Lemma main_send_raises_witness :
  phone_number env1 = Some (lit "+5511999"%string) /\
  ms_number env1 = Some (lit "whatsapp:+14155238886"%string) /\
  refuse _ (MessagingCreate initial_body
              (format_number (lit "whatsapp:+14155238886"%string))
              (format_number (lit "+5511999"%string))) tt
  = (tt, inl (TwilioRestException 503)) /\
  returns (run refuse (main env1) None (tt, []))
          ((tt, [] ++ [Entry (MessagingCreate initial_body
                                (format_number (lit "whatsapp:+14155238886"%string))
                                (format_number (lit "+5511999"%string)))
                             (inl (TwilioRestException 503))]),
           (None, inl (TwilioRestException 503))).
Proof.
  split; [reflexivity|]. split; [reflexivity|]. split; [reflexivity|].
  apply (main_send_raises unit refuse env1 (lit "+5511999"%string)
           (lit "whatsapp:+14155238886"%string) None tt [] tt
           (TwilioRestException 503)); reflexivity.
Defined.



Lemma unprintable_body_ends_loop_witness :
  mock_respond _ (MessagesList conversation1) (mock [] [] [hi; garbled] false)
  = (mock [] [] [hi; garbled] false, inr ([hi] ++ [garbled])) /\
  Some (sid garbled) <> Some (sid hi) /\
  author garbled = user1 /\
  encodable (body garbled) = false /\
  returns (run mock_respond (poll_body conversation1 user1) (Some (sid hi))
             (mock [] [] [hi; garbled] false, []))
          ((mock [] [] [hi; garbled] false,
            [] ++ [Entry (MessagesList conversation1) (inr ([hi] ++ [garbled]))]),
           (Some (sid hi), inl UnicodeEncodeError)) /\
  returns (run mock_respond (while_true (poll_body conversation1 user1))
             (Some (sid hi)) (mock [] [] [hi; garbled] false, []))
          ((mock [] [] [hi; garbled] false,
            [] ++ [Entry (MessagesList conversation1) (inr ([hi] ++ [garbled]))]),
           (Some (sid hi), inl UnicodeEncodeError)).
Proof.
  split; [reflexivity|]. split; [discriminate|]. split; [reflexivity|].
  split; [reflexivity|].
  apply (unprintable_body_ends_loop Mock mock_respond conversation1 user1
           (Some (sid hi)) (mock [] [] [hi; garbled] false) []
           (mock [] [] [hi; garbled] false) [hi] garbled);
    [reflexivity | discriminate | reflexivity | reflexivity].
Defined.

Lemma ensure_participant_unreadable_witness :
  mock_respond _ (ParticipantsList conversation1)
    (mock [conversation1]
          [bound_to twilio1 twilio1; chat_participant; bound_to user1 twilio1]
          [] false)
  = (mock [conversation1]
          [bound_to twilio1 twilio1; chat_participant; bound_to user1 twilio1]
          [] false,
     inr ([bound_to twilio1 twilio1] ++ chat_participant :: [bound_to user1 twilio1])) /\
  bound_address chat_participant = inl TypeError /\
  returns (run mock_respond (ensure_participant conversation1 user1 twilio1) tt
             (mock [conversation1]
                   [bound_to twilio1 twilio1; chat_participant;
                    bound_to user1 twilio1] [] false, []))
          ((mock [conversation1]
                 [bound_to twilio1 twilio1; chat_participant;
                  bound_to user1 twilio1] [] false,
            [] ++ [Entry (ParticipantsList conversation1)
                         (inr ([bound_to twilio1 twilio1]
                               ++ chat_participant :: [bound_to user1 twilio1]))]),
           (tt, inl TypeError)).
Proof.
  split; [reflexivity|]. split; [reflexivity|].
  apply (ensure_participant_unreadable Mock mock_respond unit conversation1 user1
           twilio1 tt
           (mock [conversation1]
                 [bound_to twilio1 twilio1; chat_participant;
                  bound_to user1 twilio1] [] false)
           []
           (mock [conversation1]
                 [bound_to twilio1 twilio1; chat_participant;
                  bound_to user1 twilio1] [] false)
           [bound_to twilio1 twilio1] chat_participant [bound_to user1 twilio1]
           TypeError eq_refl); [|reflexivity].
  constructor; [|constructor].
  exists (Some twilio1). split; [reflexivity | discriminate].
Defined.

Lemma ensure_participant_unprintable_witness :
  mock_respond _ (ParticipantsList conversation1)
    (mock [conversation1] [bound_to twilio1 twilio1] [] false)
  = (mock [conversation1] [bound_to twilio1 twilio1] [] false,
     inr [bound_to twilio1 twilio1]) /\
  encodable (format_number garbled_body) && encodable twilio1 = false /\
  returns (run mock_respond
             (ensure_participant conversation1 (format_number garbled_body) twilio1)
             tt (mock [conversation1] [bound_to twilio1 twilio1] [] false, []))
          ((mock [conversation1] [bound_to twilio1 twilio1] [] false,
            [] ++ [Entry (ParticipantsList conversation1)
                         (inr [bound_to twilio1 twilio1])]),
           (tt, inl UnicodeEncodeError)).
Proof.
  split; [reflexivity|]. split; [reflexivity|].
  apply (ensure_participant_unprintable Mock mock_respond unit conversation1
           (format_number garbled_body) twilio1 tt
           (mock [conversation1] [bound_to twilio1 twilio1] [] false) []
           (mock [conversation1] [bound_to twilio1 twilio1] [] false)
           [bound_to twilio1 twilio1] eq_refl); [|reflexivity].
  constructor; [|constructor].
  exists (Some twilio1). split; [reflexivity | discriminate].
Defined.
